(** * AI Interview Pro: the realtime interview session and the chat panel

    A shallow embedding of the interview component (microphone capture,
    PCM encoding, playback scheduling, transcript assembly, session
    controller), of the chat panel's [sendMessage], of the video
    generator of the creative suite and of the resume analyzer, followed
    by the properties of the specification stated over it and by further
    properties of the code. *)

From Stdlib Require Import List ZArith NArith QArith Qabs Lia Bool String Ascii Arith.
Import ListNotations.


(* ===================================================================== *)
(** * JavaScript strings *)
(* ===================================================================== *)

(** A JavaScript string is a sequence of UTF-16 code units. *)
Definition jsstring := list N.

Definition str (s : string) : jsstring :=
  map N_of_ascii (list_ascii_of_string s).

(** [WhiteSpace] and [LineTerminator] code points of ECMAScript, the
    characters [String.prototype.trim] strips. *)
Definition isWhiteSpace (c : N) : bool :=
  existsb (N.eqb c)
    [0x09; 0x0A; 0x0B; 0x0C; 0x0D; 0x20; 0xA0; 0x1680;
     0x2000; 0x2001; 0x2002; 0x2003; 0x2004; 0x2005; 0x2006; 0x2007;
     0x2008; 0x2009; 0x200A; 0x2028; 0x2029; 0x202F; 0x205F; 0x3000;
     0xFEFF]%N.

Fixpoint trimStart (s : jsstring) : jsstring :=
  match s with
  | [] => []
  | c :: s' => if isWhiteSpace c then trimStart s' else s
  end.

Definition trimEnd (s : jsstring) : jsstring := rev (trimStart (rev s)).

Definition trim (s : jsstring) : jsstring := trimEnd (trimStart s).

(** Truthiness of a string: the empty string is the only falsy one. *)
Definition truthy (s : jsstring) : bool :=
  match s with [] => false | _ :: _ => true end.

Definition jsstring_eqb (a b : jsstring) : bool :=
  if list_eq_dec N.eq_dec a b then true else false.

(* ===================================================================== *)
(** * PCM capture encoding ([onaudioprocess]) *)
(* ===================================================================== *)

Module PCM.

(** A finite float sample is a rational; the product with 32767 of a
    32-bit float is exact in double precision. *)
Definition truncate (x : Q) : Z := Z.quot (Qnum x) (Zpos (Qden x)).

(** Storing a number into an [Int16Array] slot: ECMAScript [ToInt16],
    truncation toward zero followed by reduction modulo 2^16 into the
    signed range. *)
Definition ToInt16 (x : Q) : Z :=
  let int16bit := ((truncate x) mod 65536)%Z in
  if (32768 <=? int16bit)%Z then (int16bit - 65536)%Z else int16bit.

(** [int16[i] = inputData[i] * 32767] *)
Definition int16_of_sample (s : Q) : Z := ToInt16 (s * 32767)%Q.

Definition int16 (inputData : list Q) : list Z :=
  map int16_of_sample inputData.

(** [new Uint8Array(int16.buffer)]: the two's complement bytes of each
    element, low byte first. *)
Definition bytes_of_int16 (v : Z) : list Z :=
  let u := (v mod 65536)%Z in [(u mod 256)%Z; (u / 256)%Z].

Definition Uint8Array (buffer : list Z) : list Z :=
  flat_map bytes_of_int16 buffer.

(** The base64 alphabet. *)
Definition base64_char (i : Z) : N :=
  Z.to_N
    (if i <? 26 then 65 + i
     else if i <? 52 then 71 + i
     else if i <? 62 then i - 4
     else if i =? 62 then 43 else 47)%Z.

Definition base64_index (c : N) : Z :=
  let c := Z.of_N c in
  (if (65 <=? c) && (c <=? 90) then c - 65
   else if (97 <=? c) && (c <=? 122) then c - 71
   else if (48 <=? c) && (c <=? 57) then c + 4
   else if c =? 43 then 62 else 63)%Z.

Definition pad : N := 61%N.               (* '=' *)

(** Modelled from the spec: [encode] of the utilities module, which is
    not among the sources; the specification has the payload be the
    base64 text of the block's raw bytes. *)
Fixpoint encode (bytes : list Z) : jsstring :=
  match bytes with
  | [] => []
  | [a] =>
      [base64_char (a / 4); base64_char (a mod 4 * 16); pad; pad]
  | [a; b] =>
      [base64_char (a / 4); base64_char (a mod 4 * 16 + b / 16);
       base64_char (b mod 16 * 4); pad]
  | a :: b :: c :: rest =>
      [base64_char (a / 4); base64_char (a mod 4 * 16 + b / 16);
       base64_char (b mod 16 * 4 + c / 64); base64_char (c mod 64)]
      ++ encode rest
  end%Z.

(** Modelled from the spec: [decode] of the utilities module, which is
    not among the sources; the inverse reading of base64 text into
    bytes. *)
Fixpoint decode (base64 : jsstring) : list Z :=
  match base64 with
  | c1 :: c2 :: c3 :: c4 :: rest =>
      let s1 := base64_index c1 in
      let s2 := base64_index c2 in
      let s3 := base64_index c3 in
      let s4 := base64_index c4 in
      if N.eqb c3 pad then [s1 * 4 + s2 / 16]
      else if N.eqb c4 pad then
        [s1 * 4 + s2 / 16; s2 mod 16 * 16 + s3 / 4]
      else
        [s1 * 4 + s2 / 16; s2 mod 16 * 16 + s3 / 4; s3 mod 4 * 64 + s4]
        ++ decode rest
  | _ => []
  end%Z.

(** Modelled from the spec: the sample reading of the decoder, which is
    not among the sources; the specification has [decode] yield the
    block's signed 16-bit samples, stored low byte first. *)
Fixpoint samples_of_bytes (bytes : list Z) : list Z :=
  match bytes with
  | lo :: hi :: rest =>
      (let u := lo + 256 * hi in
       if 32768 <=? u then u - 65536 else u)%Z
      :: samples_of_bytes rest
  | _ => []
  end.

(** The blob sent by [onaudioprocess]. *)
Record GenaiBlob := { data : jsstring; mimeType : jsstring }.

Definition onaudioprocess (inputData : list Q) : GenaiBlob :=
  {| data := encode (Uint8Array (int16 inputData));
     mimeType := str "audio/pcm;rate=16000" |}.

(** Modelled from the spec: the codec's [decode], from a payload to
    signed 16-bit samples; its code is not among the sources. *)
Definition decode_payload (payload : GenaiBlob) : list Z :=
  samples_of_bytes (decode (data payload)).

Definition is_byte (b : Z) : Prop := (0 <= b < 256)%Z.

(** The 64 indices of the alphabet. *)
Definition sextets : list Z := map Z.of_nat (seq 0 64).

End PCM.

(* ===================================================================== *)
(** * React state updates *)
(* ===================================================================== *)

(** A setter call does not change the state the handlers see.  React
    queues the call and computes the next state when it next renders the
    component, applying the queued updates in order; a function handed
    to a setter is called then.  When the component has no update
    pending, React computes the new state at the call (its eager path),
    drops the call if the state would not change, and queues the computed
    value.

    [Store] is the mutable data the queued functions of a component read
    when they run, [reduce] applies one update, [unchanged] is the
    [Object.is] test of the eager path and [eager] turns an update into
    the value computed at the call. *)
Module React.
Section Fiber.
Variables Hooks Store Action : Type.
Variable reduce : Store -> Hooks -> Action -> Hooks.
Variable unchanged : Hooks -> Action -> bool.
Variable eager : Store -> Hooks -> Action -> Action.

Definition dispatch (store : Store) (a : Action)
    (fiber : Hooks * list Action) : Hooks * list Action :=
  match snd fiber with
  | [] =>
      if unchanged (fst fiber) a then fiber
      else (fst fiber, [eager store (fst fiber) a])
  | q => (fst fiber, q ++ [a])
  end.

Definition render (store : Store) (fiber : Hooks * list Action)
    : Hooks * list Action :=
  (fold_left (reduce store) (snd fiber) (fst fiber), []).
End Fiber.
Arguments dispatch {Hooks Store Action} unchanged eager store a fiber.
Arguments render {Hooks Store Action} reduce store fiber.
End React.

(* ===================================================================== *)
(** * The interview component *)
(* ===================================================================== *)

Module Interview.

Inductive InterviewState := setup | in_progress | finished | error.

Inductive Speaker := user | model.

Record TranscriptEntry := { speaker : Speaker; text : jsstring }.

(** An [AudioBufferSourceNode] is identified by the order of its
    creation. *)
Definition AudioBufferSourceNode := nat.

(** ** [Set<AudioBufferSourceNode>]: elements in insertion order *)

Definition has (s : AudioBufferSourceNode) (set : list AudioBufferSourceNode) : bool :=
  existsb (Nat.eqb s) set.

Definition add (s : AudioBufferSourceNode) (set : list AudioBufferSourceNode) :=
  if has s set then set else set ++ [s].

Definition delete (s : AudioBufferSourceNode) (set : list AudioBufferSourceNode) :=
  filter (fun x => negb (Nat.eqb s x)) set.

(** ** The [useRef] cells *)

Record Refs := {
  sessionPromiseRef : bool;              (* non-null *)
  audioContextRef : bool;                (* non-null *)
  outputAudioContextRef : bool;          (* non-null *)
  processorRef : bool;                   (* non-null *)
  currentInputTranscriptionRef : jsstring;
  currentOutputTranscriptionRef : jsstring;
  nextStartTimeRef : Q;
  sourcesRef : list AudioBufferSourceNode
}.

Definition set_sessionPromiseRef v r :=
  {| sessionPromiseRef := v; audioContextRef := audioContextRef r;
     outputAudioContextRef := outputAudioContextRef r;
     processorRef := processorRef r;
     currentInputTranscriptionRef := currentInputTranscriptionRef r;
     currentOutputTranscriptionRef := currentOutputTranscriptionRef r;
     nextStartTimeRef := nextStartTimeRef r; sourcesRef := sourcesRef r |}.

Definition set_audioContextRef v r :=
  {| sessionPromiseRef := sessionPromiseRef r; audioContextRef := v;
     outputAudioContextRef := outputAudioContextRef r;
     processorRef := processorRef r;
     currentInputTranscriptionRef := currentInputTranscriptionRef r;
     currentOutputTranscriptionRef := currentOutputTranscriptionRef r;
     nextStartTimeRef := nextStartTimeRef r; sourcesRef := sourcesRef r |}.

Definition set_outputAudioContextRef v r :=
  {| sessionPromiseRef := sessionPromiseRef r;
     audioContextRef := audioContextRef r;
     outputAudioContextRef := v;
     processorRef := processorRef r;
     currentInputTranscriptionRef := currentInputTranscriptionRef r;
     currentOutputTranscriptionRef := currentOutputTranscriptionRef r;
     nextStartTimeRef := nextStartTimeRef r; sourcesRef := sourcesRef r |}.

Definition set_processorRef v r :=
  {| sessionPromiseRef := sessionPromiseRef r;
     audioContextRef := audioContextRef r;
     outputAudioContextRef := outputAudioContextRef r;
     processorRef := v;
     currentInputTranscriptionRef := currentInputTranscriptionRef r;
     currentOutputTranscriptionRef := currentOutputTranscriptionRef r;
     nextStartTimeRef := nextStartTimeRef r; sourcesRef := sourcesRef r |}.

Definition set_currentInputTranscriptionRef v r :=
  {| sessionPromiseRef := sessionPromiseRef r;
     audioContextRef := audioContextRef r;
     outputAudioContextRef := outputAudioContextRef r;
     processorRef := processorRef r;
     currentInputTranscriptionRef := v;
     currentOutputTranscriptionRef := currentOutputTranscriptionRef r;
     nextStartTimeRef := nextStartTimeRef r; sourcesRef := sourcesRef r |}.

Definition set_currentOutputTranscriptionRef v r :=
  {| sessionPromiseRef := sessionPromiseRef r;
     audioContextRef := audioContextRef r;
     outputAudioContextRef := outputAudioContextRef r;
     processorRef := processorRef r;
     currentInputTranscriptionRef := currentInputTranscriptionRef r;
     currentOutputTranscriptionRef := v;
     nextStartTimeRef := nextStartTimeRef r; sourcesRef := sourcesRef r |}.

Definition set_nextStartTimeRef v r :=
  {| sessionPromiseRef := sessionPromiseRef r;
     audioContextRef := audioContextRef r;
     outputAudioContextRef := outputAudioContextRef r;
     processorRef := processorRef r;
     currentInputTranscriptionRef := currentInputTranscriptionRef r;
     currentOutputTranscriptionRef := currentOutputTranscriptionRef r;
     nextStartTimeRef := v; sourcesRef := sourcesRef r |}.

Definition set_sourcesRef v r :=
  {| sessionPromiseRef := sessionPromiseRef r;
     audioContextRef := audioContextRef r;
     outputAudioContextRef := outputAudioContextRef r;
     processorRef := processorRef r;
     currentInputTranscriptionRef := currentInputTranscriptionRef r;
     currentOutputTranscriptionRef := currentOutputTranscriptionRef r;
     nextStartTimeRef := nextStartTimeRef r; sourcesRef := v |}.

(** ** The [useState] cells, as of the last render *)

Record Hooks := {
  interviewState : InterviewState;
  jobRole : jsstring;
  jobDescription : jsstring;
  errorMessage : option jsstring;        (* the [error] cell *)
  transcripts : list TranscriptEntry;
  isTalking : bool
}.

(** A call of a state setter.  A setter called with a function
    ([setTranscripts(prev => ...)]) hands React a closure; the closures
    of this component read the refs when they are run, so they are
    functions of the refs as well as of the previous state. *)
Inductive Action :=
| setInterviewState (v : InterviewState)
| setJobRole (v : jsstring)
| setJobDescription (v : jsstring)
| setError (v : option jsstring)
| setTranscripts (v : list TranscriptEntry)
| setTranscripts_fn (f : Refs -> list TranscriptEntry -> list TranscriptEntry)
| setIsTalking (v : bool).

(** Calls on the browser and on the SDK, in program order. *)
Inductive Effect :=
| getUserMedia
| connect (systemInstruction : jsstring)
| session_close
| processor_disconnect
| audioContext_close
| outputAudioContext_close
| source_start (s : AudioBufferSourceNode) (when : Q)
| source_stop (s : AudioBufferSourceNode).

(** How a node left [sourcesRef]. *)
Inductive Removal := ended_listener | forced_stop | session_reset.

(** Membership changes of [sourcesRef], in program order.  This is a
    history variable: the program does not read it. *)
Inductive SetOp :=
| added (s : AudioBufferSourceNode)
| removed (s : AudioBufferSourceNode) (how : Removal).

Record Component := {
  hooks : Hooks;
  updateQueue : list Action;             (* setter calls not yet rendered *)
  refs : Refs;
  created : nat;                         (* source nodes created so far *)
  trace : list Effect;
  history : list SetOp
}.

Definition with_hooks h c :=
  {| hooks := h; updateQueue := updateQueue c; refs := refs c;
     created := created c; trace := trace c; history := history c |}.
Definition with_updateQueue q c :=
  {| hooks := hooks c; updateQueue := q; refs := refs c;
     created := created c; trace := trace c; history := history c |}.
Definition with_refs r c :=
  {| hooks := hooks c; updateQueue := updateQueue c; refs := r;
     created := created c; trace := trace c; history := history c |}.
Definition with_created n c :=
  {| hooks := hooks c; updateQueue := updateQueue c; refs := refs c;
     created := n; trace := trace c; history := history c |}.
Definition call (e : list Effect) c :=
  {| hooks := hooks c; updateQueue := updateQueue c; refs := refs c;
     created := created c; trace := trace c ++ e; history := history c |}.
Definition record (o : list SetOp) c :=
  {| hooks := hooks c; updateQueue := updateQueue c; refs := refs c;
     created := created c; trace := trace c; history := history c ++ o |}.

Definition update_refs (f : Refs -> Refs) c := with_refs (f (refs c)) c.

(** ** The state setters *)

Definition InterviewState_eqb (a b : InterviewState) : bool :=
  match a, b with
  | setup, setup | in_progress, in_progress
  | finished, finished | error, error => true
  | _, _ => false
  end.

Definition error_eqb (a b : option jsstring) : bool :=
  match a, b with
  | None, None => true
  | Some x, Some y => jsstring_eqb x y
  | _, _ => false
  end.

Definition reduce (r : Refs) (h : Hooks) (a : Action) : Hooks :=
  match a with
  | setInterviewState v =>
      {| interviewState := v; jobRole := jobRole h;
         jobDescription := jobDescription h; errorMessage := errorMessage h;
         transcripts := transcripts h; isTalking := isTalking h |}
  | setJobRole v =>
      {| interviewState := interviewState h; jobRole := v;
         jobDescription := jobDescription h; errorMessage := errorMessage h;
         transcripts := transcripts h; isTalking := isTalking h |}
  | setJobDescription v =>
      {| interviewState := interviewState h; jobRole := jobRole h;
         jobDescription := v; errorMessage := errorMessage h;
         transcripts := transcripts h; isTalking := isTalking h |}
  | setError v =>
      {| interviewState := interviewState h; jobRole := jobRole h;
         jobDescription := jobDescription h; errorMessage := v;
         transcripts := transcripts h; isTalking := isTalking h |}
  | setTranscripts v =>
      {| interviewState := interviewState h; jobRole := jobRole h;
         jobDescription := jobDescription h; errorMessage := errorMessage h;
         transcripts := v; isTalking := isTalking h |}
  | setTranscripts_fn f =>
      {| interviewState := interviewState h; jobRole := jobRole h;
         jobDescription := jobDescription h; errorMessage := errorMessage h;
         transcripts := f r (transcripts h); isTalking := isTalking h |}
  | setIsTalking v =>
      {| interviewState := interviewState h; jobRole := jobRole h;
         jobDescription := jobDescription h; errorMessage := errorMessage h;
         transcripts := transcripts h; isTalking := v |}
  end.

(** [Object.is(eagerState, currentState)]: a freshly built array is
    never the current one. *)
Definition unchanged (h : Hooks) (a : Action) : bool :=
  match a with
  | setInterviewState v => InterviewState_eqb v (interviewState h)
  | setJobRole v => jsstring_eqb v (jobRole h)
  | setJobDescription v => jsstring_eqb v (jobDescription h)
  | setError v => error_eqb v (errorMessage h)
  | setTranscripts _ | setTranscripts_fn _ => false
  | setIsTalking v => Bool.eqb v (isTalking h)
  end.

(** The value React stores for an update it computes at the call. *)
Definition eager (r : Refs) (h : Hooks) (a : Action) : Action :=
  match a with
  | setTranscripts_fn f => setTranscripts (f r (transcripts h))
  | _ => a
  end.

Definition with_fiber (f : Hooks * list Action) c :=
  with_updateQueue (snd f) (with_hooks (fst f) c).

Definition dispatch (a : Action) (c : Component) : Component :=
  with_fiber
    (React.dispatch unchanged eager (refs c) a (hooks c, updateQueue c)) c.

Definition render (c : Component) : Component :=
  with_fiber (React.render reduce (refs c) (hooks c, updateQueue c)) c.

(** The state the next render commits. *)
Definition committed (c : Component) : Hooks :=
  fold_left (reduce (refs c)) (updateQueue c) (hooks c).

(** A setter call with a value rather than a function. *)
Definition plain (a : Action) : Prop :=
  match a with setTranscripts_fn _ => False | _ => True end.

(** The component as first mounted: the initial values of its
    [useState] and [useRef] cells. *)
Definition mount : Component :=
  {| hooks := {| interviewState := setup; jobRole := []; jobDescription := [];
                 errorMessage := None; transcripts := []; isTalking := false |};
     updateQueue := [];
     refs := {| sessionPromiseRef := false; audioContextRef := false;
                outputAudioContextRef := false; processorRef := false;
                currentInputTranscriptionRef := [];
                currentOutputTranscriptionRef := [];
                nextStartTimeRef := 0; sourcesRef := [] |};
     created := 0; trace := []; history := [] |}.

(** The two [onChange] handlers of the setup form. *)
Definition onChange_jobRole (value : jsstring) (c : Component) : Component :=
  dispatch (setJobRole value) c.

Definition onChange_jobDescription (value : jsstring) (c : Component) : Component :=
  dispatch (setJobDescription value) c.

(** ** [stopAudioProcessing] *)

Definition stop_sources (c : Component) : Component :=
  let set := sourcesRef (refs c) in
  update_refs (set_sourcesRef [])
    (record (map (fun s => removed s forced_stop) set)
       (call (map source_stop set) c)).

Definition stopAudioProcessing (c : Component) : Component :=
  let c :=
    if processorRef (refs c)
    then update_refs (set_processorRef false) (call [processor_disconnect] c)
    else c in
  let c :=
    if audioContextRef (refs c)
    then update_refs (set_audioContextRef false) (call [audioContext_close] c)
    else c in
  let c :=
    if outputAudioContextRef (refs c)
    then update_refs (set_outputAudioContextRef false)
           (call [outputAudioContext_close] c)
    else c in
  stop_sources c.

(** ** [startInterview] *)

(** [sourcesRef.current.clear()] with nothing stopped. *)
Definition clear_sources (c : Component) : Component :=
  update_refs (set_sourcesRef [])
    (record (map (fun s => removed s session_reset) (sourcesRef (refs c))) c).

Definition systemInstruction (jobRole jobDescription : jsstring) : jsstring :=
  str "You are a professional interviewer conducting an interview for a '"
  ++ jobRole
  ++ str "' position. The job description is: '"
  ++ jobDescription
  ++ str "'. Ask relevant behavioral and technical questions. Keep your responses concise and conversational. Start by introducing yourself and then ask the first question.".

(** Where an asynchronous function stands: it has returned, or it is
    suspended at an [await] with the state it leaves behind. *)
Inductive Suspended (K : Type) :=
| returned (c : Component)
| awaiting (k : K) (c : Component).
Arguments returned {K} c.
Arguments awaiting {K} k c.

(** Up to [await navigator.mediaDevices.getUserMedia(...)]. *)
Definition startInterview (c : Component) : Suspended (jsstring * jsstring) :=
  if negb (truthy (trim (jobRole (hooks c))))
     || negb (truthy (trim (jobDescription (hooks c))))
  then
    returned
      (dispatch
         (setError (Some (str "Please fill in both job role and description.")))
         c)
  else
    let c := dispatch (setError None) c in
    let c := dispatch (setTranscripts []) c in
    let c := dispatch (setInterviewState in_progress) c in
    let c := update_refs (set_currentInputTranscriptionRef []) c in
    let c := update_refs (set_currentOutputTranscriptionRef []) c in
    let c := update_refs (set_nextStartTimeRef 0) c in
    let c := clear_sources c in
    awaiting (jobRole (hooks c), jobDescription (hooks c))
      (call [getUserMedia] c).

(** The outcome of the microphone request. *)
Inductive UserMedia := stream | NotAllowedError.

(** From the [await] on: the rest of the [try] block, or the [catch].
    [k] holds the [jobRole] and [jobDescription] the closure was created
    with. *)
Definition startInterview_resume (k : jsstring * jsstring) (m : UserMedia)
    (c : Component) : Component :=
  match m with
  | stream =>
      update_refs (set_sessionPromiseRef true)
        (call [connect (systemInstruction (fst k) (snd k))] c)
  | NotAllowedError =>
      let c :=
        dispatch
          (setError
             (Some (str "Could not access microphone. Please check permissions.")))
          c in
      dispatch (setInterviewState error) c
  end.

(** The session callbacks. *)
Definition onopen (c : Component) : Component :=
  let c := update_refs (set_audioContextRef true) c in
  let c := update_refs (set_outputAudioContextRef true) c in
  update_refs (set_processorRef true) c.

Definition onerror (c : Component) : Component :=
  let c :=
    dispatch (setError (Some (str "An error occurred during the interview."))) c in
  let c := dispatch (setInterviewState error) c in
  stopAudioProcessing c.

Definition onclose (c : Component) : Component := stopAudioProcessing c.

(** ** [endInterview] *)

Definition endInterview (c : Component) : Component :=
  let c := if sessionPromiseRef (refs c) then call [session_close] c else c in
  let c := update_refs (set_sessionPromiseRef false) c in
  let c := stopAudioProcessing c in
  let c := dispatch (setInterviewState finished) c in
  dispatch (setIsTalking false) c.

(** ** [handleLiveMessage] *)

(** [modelTurn.parts[0].inlineData]: the base64 text, and the duration
    of the [AudioBuffer] that [decodeAudioData(decode(data), ...)]
    yields for it. *)
Record InlineData := { data : jsstring; duration : Q }.

(** [message.serverContent] *)
Record LiveServerMessage := {
  inputTranscription : option jsstring;
  outputTranscription : option jsstring;
  turnComplete : bool;
  inlineData : option InlineData;
  interrupted : bool
}.

(** [Math.max(a, b)] keeps [a] unless [b] is greater. *)
Definition Math_max (a b : Q) : Q := if Qle_bool b a then a else b.

(** The two updaters of the turn-complete branch. *)
Definition append_user_entry (r : Refs) (prev : list TranscriptEntry) :=
  prev ++ [{| speaker := user; text := trim (currentInputTranscriptionRef r) |}].

Definition append_model_entry (r : Refs) (prev : list TranscriptEntry) :=
  prev ++ [{| speaker := model; text := trim (currentOutputTranscriptionRef r) |}].

Definition on_inputTranscription (message : LiveServerMessage) c :=
  match inputTranscription message with
  | Some text =>
      let c :=
        update_refs
          (fun r => set_currentInputTranscriptionRef
                      (currentInputTranscriptionRef r ++ text) r) c in
      dispatch (setIsTalking true) c
  | None => c
  end.

Definition on_outputTranscription (message : LiveServerMessage) c :=
  match outputTranscription message with
  | Some text =>
      update_refs
        (fun r => set_currentOutputTranscriptionRef
                    (currentOutputTranscriptionRef r ++ text) r) c
  | None => c
  end.

Definition on_turnComplete (message : LiveServerMessage) c :=
  if turnComplete message then
    let c :=
      if truthy (trim (currentInputTranscriptionRef (refs c)))
      then dispatch (setTranscripts_fn append_user_entry) c else c in
    let c :=
      if truthy (trim (currentOutputTranscriptionRef (refs c)))
      then dispatch (setTranscripts_fn append_model_entry) c else c in
    let c := update_refs (set_currentInputTranscriptionRef []) c in
    let c := update_refs (set_currentOutputTranscriptionRef []) c in
    dispatch (setIsTalking false) c
  else c.

Definition on_interrupted (interrupted : bool) c :=
  if interrupted then
    update_refs (set_nextStartTimeRef 0) (stop_sources c)
  else c.

(** What the handler holds across [await decodeAudioData(...)]. *)
Record Decoding := { audioBuffer_duration : Q; message_interrupted : bool }.

(** Up to the [await], or to the end when no audio is scheduled. *)
Definition handleLiveMessage (currentTime : Q) (message : LiveServerMessage)
    (c : Component) : Suspended Decoding :=
  let c := on_inputTranscription message c in
  let c := on_outputTranscription message c in
  let c := on_turnComplete message c in
  let outputAudioContext := outputAudioContextRef (refs c) in
  match inlineData message with
  | Some audio =>
      if truthy (data audio) && outputAudioContext then
        let c :=
          update_refs
            (fun r => set_nextStartTimeRef
                        (Math_max (nextStartTimeRef r) currentTime) r) c in
        awaiting {| audioBuffer_duration := duration audio;
                    message_interrupted := interrupted message |} c
      else returned (on_interrupted (interrupted message) c)
  | None => returned (on_interrupted (interrupted message) c)
  end.

(** From the [await] to the end. *)
Definition handleLiveMessage_resume (k : Decoding) (c : Component) : Component :=
  let source := created c in
  let c := with_created (S source) c in
  let c := call [source_start source (nextStartTimeRef (refs c))] c in
  let c :=
    update_refs
      (fun r => set_nextStartTimeRef
                  (nextStartTimeRef r + audioBuffer_duration k) r) c in
  let c :=
    if has source (sourcesRef (refs c)) then c
    else record [added source]
           (update_refs (fun r => set_sourcesRef (add source (sourcesRef r)) r) c) in
  on_interrupted (message_interrupted k) c.

(** The handler run without anything in between. *)
Definition handleLiveMessage_whole (currentTime : Q)
    (message : LiveServerMessage) (c : Component) : Component :=
  match handleLiveMessage currentTime message c with
  | returned c' => c'
  | awaiting k c' => handleLiveMessage_resume k c'
  end.

(** The ['ended'] listener of a source. *)
Definition ended (source : AudioBufferSourceNode) (c : Component) : Component :=
  if has source (sourcesRef (refs c)) then
    record [removed source ended_listener]
      (update_refs (fun r => set_sourcesRef (delete source (sourcesRef r)) r) c)
  else c.

(** ** One session on the event loop

    The handlers run one at a time; a handler suspended on its decode
    is resumed by a later turn of the loop, and other handlers may run
    before that. *)

Record Session := { component : Component; decoding : list Decoding }.

Inductive Event :=
| opened
| message_received (currentTime : Q) (message : LiveServerMessage)
| decoded (i : nat)
| source_ended (source : AudioBufferSourceNode)
| errored
| closed
| end_clicked
| rendered.

Fixpoint remove_nth {A} (i : nat) (l : list A) : list A :=
  match l, i with
  | [], _ => []
  | _ :: l', O => l'
  | x :: l', S i' => x :: remove_nth i' l'
  end.

Definition step (e : Event) (s : Session) : Session :=
  let on f := {| component := f (component s); decoding := decoding s |} in
  match e with
  | opened => on onopen
  | message_received currentTime message =>
      match handleLiveMessage currentTime message (component s) with
      | returned c => {| component := c; decoding := decoding s |}
      | awaiting k c => {| component := c; decoding := decoding s ++ [k] |}
      end
  | decoded i =>
      match nth_error (decoding s) i with
      | Some k => {| component := handleLiveMessage_resume k (component s);
                     decoding := remove_nth i (decoding s) |}
      | None => s
      end
  | source_ended source => on (ended source)
  | errored => on onerror
  | closed => on onclose
  | end_clicked => on endInterview
  | rendered => on render
  end.

Definition run (es : list Event) (s : Session) : Session :=
  fold_left (fun s e => step e s) es s.

(** ** Vocabulary of the playback properties *)

(** Messages handled one after the other, each to its end, with the
    output clock read by each. *)
Definition handle_all (ms : list (Q * LiveServerMessage)) (c : Component)
    : Component :=
  fold_left (fun c tm => handleLiveMessage_whole (fst tm) (snd tm) c) ms c.

(** The message carries audio that the handler schedules. *)
Definition playable (message : LiveServerMessage) : bool :=
  match inlineData message with
  | Some audio => truthy (data audio)
  | None => false
  end.

(** The segments of a run of messages: the clock at which each is
    handled and its duration. *)
Definition segments (ms : list (Q * LiveServerMessage)) : list (Q * Q) :=
  flat_map
    (fun tm => match inlineData (snd tm) with
               | Some audio =>
                   if truthy (data audio) then [(fst tm, duration audio)] else []
               | None => []
               end)
    ms.

(** The start times as the specification words them: each segment
    starts at the larger of the cursor and the clock, and the cursor then
    advances by the segment's duration. *)
Fixpoint starts (cursor : Q) (segs : list (Q * Q)) : list Q :=
  match segs with
  | [] => []
  | (clock, d) :: rest =>
      let start := Math_max cursor clock in
      start :: starts (start + d) rest
  end.

(** Consecutive nodes started at the given times. *)
Fixpoint scheduled (first : AudioBufferSourceNode) (ts : list Q) : list Effect :=
  match ts with
  | [] => []
  | t :: rest => source_start first t :: scheduled (S first) rest
  end.

(** The part of the state the playback scheduler owns. *)
Definition playback (c : Component) :=
  (outputAudioContextRef (refs c), nextStartTimeRef (refs c),
   sourcesRef (refs c), created c, trace c, history c).






(** The cells other than [transcripts] are set by value only. *)
Definition same_but_transcripts (h h' : Hooks) : Prop :=
  interviewState h = interviewState h' /\ jobRole h = jobRole h' /\
  jobDescription h = jobDescription h' /\ errorMessage h = errorMessage h' /\
  isTalking h = isTalking h'.

(** The setup form filled in. *)
Definition filled_in : Component :=
  render (onChange_jobDescription (str "Go services")
            (render (onChange_jobRole (str "Engineer") mount))).

(** The transcript part of the handler. *)
Definition transcript_part (message : LiveServerMessage) (c : Component) :=
  on_turnComplete message
    (on_outputTranscription message (on_inputTranscription message c)).

(** ** A session from the setup form to the end of a turn *)

Definition start_granted (c : Component) : Component :=
  match startInterview c with
  | awaiting k c1 => onopen (startInterview_resume k stream (render c1))
  | returned c1 => c1
  end.

Definition heard (text : jsstring) : LiveServerMessage :=
  {| inputTranscription := Some text; outputTranscription := None;
     turnComplete := false; inlineData := None; interrupted := false |}.

Definition said (text : jsstring) : LiveServerMessage :=
  {| inputTranscription := None; outputTranscription := Some text;
     turnComplete := false; inlineData := None; interrupted := false |}.

Definition turn_complete : LiveServerMessage :=
  {| inputTranscription := None; outputTranscription := None;
     turnComplete := true; inlineData := None; interrupted := false |}.

(** The user says "Hi", the model answers "Hello.", the turn
    completes; React renders after each message. *)
Definition one_turn : Session :=
  run [message_received 1 (heard (str "Hi")); rendered;
       message_received 2 (said (str "Hello.")); rendered;
       message_received 3 turn_complete; rendered]
    {| component := start_granted filled_in; decoding := [] |}.

(** The specification's example: the user accumulator holds two
    spaces and the model says "Hello.". *)
Definition blank_then_hello : Session :=
  run [message_received 1 (heard (str "  ")); rendered;
       message_received 2 (said (str "Hello.")); rendered;
       message_received 3 turn_complete; rendered]
    {| component := start_granted filled_in; decoding := [] |}.

Definition heard_and_complete (text : jsstring) : LiveServerMessage :=
  {| inputTranscription := Some text; outputTranscription := None;
     turnComplete := true; inlineData := None; interrupted := false |}.

(** The same accumulators, the spaces arriving with the turn-complete
    flag. *)
Definition blank_then_hello_in_one_message : Session :=
  run [message_received 1 (said (str "Hello.")); rendered;
       message_received 2 (heard_and_complete (str "  ")); rendered]
    {| component := start_granted filled_in; decoding := [] |}.

(** A message that carries one audio chunk of the given duration. *)
Definition audio_chunk (d : Q) (interrupt : bool) : LiveServerMessage :=
  {| inputTranscription := None; outputTranscription := None;
     turnComplete := false;
     inlineData := Some {| data := str "AAAA"; duration := d |};
     interrupted := interrupt |}.


(** Three chunks: the second arrives before the first has played out,
    the third after a pause and a transcription fragment. *)
Definition three_chunks : list (Q * LiveServerMessage) :=
  [(1, audio_chunk 2 false); (2, audio_chunk 1 false);
   (4, said (str "Hello.")); (10, audio_chunk 1 false)].


(** ** What the component shows (the final [switch]) *)

Inductive View :=
| renderSetup (shown_error : option jsstring)
| renderInProgress (entries : list TranscriptEntry) (talking : bool)
| renderFinished (entries : list TranscriptEntry).

Definition view (h : Hooks) : View :=
  match interviewState h with
  | in_progress => renderInProgress (transcripts h) (isTalking h)
  | finished | error => renderFinished (transcripts h)
  | setup => renderSetup (errorMessage h)
  end.

(** ** Further vocabulary *)

(** [disabled] of the start button in [renderSetup]. *)
Definition startButton_disabled (h : Hooks) : bool :=
  negb (truthy (trim (jobRole h))) || negb (truthy (trim (jobDescription h))).

(** The devices are released and nothing plays. *)
Definition released (c : Component) : Prop :=
  processorRef (refs c) = false /\ audioContextRef (refs c) = false /\
  outputAudioContextRef (refs c) = false /\ sourcesRef (refs c) = [].

(** The calls of a teardown, in program order. *)
Definition teardown_calls (r : Refs) : list Effect :=
  (if processorRef r then [processor_disconnect] else [])
  ++ (if audioContextRef r then [audioContext_close] else [])
  ++ (if outputAudioContextRef r then [outputAudioContext_close] else [])
  ++ map source_stop (sourcesRef r).


(** A session in which a chunk is playing. *)
Definition playing : Component :=
  handle_all three_chunks (start_granted filled_in).

End Interview.

(* ===================================================================== *)
(** * The chat panel *)
(* ===================================================================== *)

Module Chatbot.

Inductive Sender := user | bot.

Record GroundingSource := { title : jsstring; uri : jsstring }.

(** [sources] is optional. *)
Record ChatMessage := {
  sender : Sender;
  text : jsstring;
  sources : option (list GroundingSource)
}.

(** The [useState] cells, as of the last render. *)
Record Hooks := {
  chat : bool;                           (* non-null *)
  messages : list ChatMessage;
  input : jsstring;
  isLoading : bool;
  useGrounding : bool
}.

(** The variables [fullText] and [allSources] of one [sendMessage]
    call; the functions it hands to [setMessages] read them when they
    are run. *)
Record Locals := { fullText : jsstring; allSources : list GroundingSource }.

Definition Store := list Locals.

Definition locals_of (id : nat) (store : Store) : Locals :=
  nth id store {| fullText := []; allSources := [] |}.

Fixpoint store_set (id : nat) (l : Locals) (store : Store) : Store :=
  match store, id with
  | [], _ => []
  | _ :: rest, O => l :: rest
  | x :: rest, S id' => x :: store_set id' l rest
  end.

Inductive Action :=
| setChat (v : bool)
| setMessages (v : list ChatMessage)
| setMessages_fn (f : Store -> list ChatMessage -> list ChatMessage)
| setInput (v : jsstring)
| setIsLoading (v : bool)
| setUseGrounding (v : bool).

Inductive Effect :=
| streamChatResponse (message : jsstring) (grounding : bool).

Record Component := {
  hooks : Hooks;
  updateQueue : list Action;
  store : Store;
  trace : list Effect
}.

Definition reduce (s : Store) (h : Hooks) (a : Action) : Hooks :=
  match a with
  | setChat v =>
      {| chat := v; messages := messages h; input := input h;
         isLoading := isLoading h; useGrounding := useGrounding h |}
  | setMessages v =>
      {| chat := chat h; messages := v; input := input h;
         isLoading := isLoading h; useGrounding := useGrounding h |}
  | setMessages_fn f =>
      {| chat := chat h; messages := f s (messages h); input := input h;
         isLoading := isLoading h; useGrounding := useGrounding h |}
  | setInput v =>
      {| chat := chat h; messages := messages h; input := v;
         isLoading := isLoading h; useGrounding := useGrounding h |}
  | setIsLoading v =>
      {| chat := chat h; messages := messages h; input := input h;
         isLoading := v; useGrounding := useGrounding h |}
  | setUseGrounding v =>
      {| chat := chat h; messages := messages h; input := input h;
         isLoading := isLoading h; useGrounding := v |}
  end.

Definition unchanged (h : Hooks) (a : Action) : bool :=
  match a with
  | setChat _ | setMessages _ | setMessages_fn _ => false
  | setInput v => jsstring_eqb v (input h)
  | setIsLoading v => Bool.eqb v (isLoading h)
  | setUseGrounding v => Bool.eqb v (useGrounding h)
  end.

Definition eager (s : Store) (h : Hooks) (a : Action) : Action :=
  match a with
  | setMessages_fn f => setMessages (f s (messages h))
  | _ => a
  end.

Definition with_fiber (f : Hooks * list Action) c :=
  {| hooks := fst f; updateQueue := snd f; store := store c;
     trace := trace c |}.

Definition with_store s c :=
  {| hooks := hooks c; updateQueue := updateQueue c; store := s;
     trace := trace c |}.

Definition call (e : Effect) c :=
  {| hooks := hooks c; updateQueue := updateQueue c; store := store c;
     trace := trace c ++ [e] |}.

Definition dispatch (a : Action) (c : Component) : Component :=
  with_fiber
    (React.dispatch unchanged eager (store c) a (hooks c, updateQueue c)) c.

Definition render (c : Component) : Component :=
  with_fiber (React.render reduce (store c) (hooks c, updateQueue c)) c.

(** [prev.map((msg, index) => index === prev.length - 1 ? f(msg) : msg)] *)
Fixpoint map_last (f : ChatMessage -> ChatMessage) (prev : list ChatMessage) :=
  match prev with
  | [] => []
  | [msg] => [f msg]
  | msg :: rest => msg :: map_last f rest
  end.

Inductive Suspended (K : Type) :=
| returned (c : Component)
| awaiting (k : K) (c : Component).
Arguments returned {K} c.
Arguments awaiting {K} k c.

(** ** [sendMessage], up to [await streamChatResponse(...)]

    The continuation is the index of the call's variables in the
    store. *)
Definition sendMessage (c : Component) : Suspended nat :=
  if negb (truthy (trim (input (hooks c)))) || negb (chat (hooks c))
  then returned c
  else
    let input_ := input (hooks c) in
    let userMessage :=
      {| sender := user; text := input_; sources := None |} in
    let c := dispatch (setMessages_fn (fun _ prev => prev ++ [userMessage])) c in
    let c := dispatch (setInput []) c in
    let c := dispatch (setIsLoading true) c in
    let botMessage := {| sender := bot; text := []; sources := Some [] |} in
    let c := dispatch (setMessages_fn (fun _ prev => prev ++ [botMessage])) c in
    let id := List.length (store c) in
    let c := with_store (store c ++ [{| fullText := []; allSources := [] |}]) c in
    awaiting id (call (streamChatResponse input_ (useGrounding (hooks c))) c).

(** ** The streamed chunks *)

Record Place := { place_title : option jsstring; place_uri : option jsstring }.

Record GroundingChunk := { web : option Place; maps : option Place }.

(** [chunk.text] and
    [chunk.candidates?.[0]?.groundingMetadata?.groundingChunks] *)
Record Chunk := {
  chunk_text : option jsstring;
  groundingChunks : option (list GroundingChunk)
}.

(** [a || b] on optional strings. *)
Definition or_else (a b : option jsstring) : option jsstring :=
  match a with
  | Some (_ :: _) => a
  | _ => b
  end.

Definition opt_chain {A} (p : option Place) (f : Place -> option A) : option A :=
  match p with Some x => f x | None => None end.

(** The [map] callback: a title, and a uri that may be missing. *)
Definition to_source (c : GroundingChunk) : jsstring * option jsstring :=
  (match or_else (or_else (opt_chain (web c) place_title)
                          (opt_chain (maps c) place_title))
                 (Some (str "Source")) with
   | Some t => t
   | None => []
   end,
   or_else (opt_chain (web c) place_uri) (opt_chain (maps c) place_uri)).

(** The [filter] callback, against the sources collected so far. *)
Definition new_sources (all : list GroundingSource)
    (mapped : list (jsstring * option jsstring)) : list GroundingSource :=
  flat_map
    (fun s =>
       match snd s with
       | Some (u :: us) =>
           if existsb (fun a => jsstring_eqb (uri a) (u :: us)) all then []
           else [{| title := fst s; uri := u :: us |}]
       | _ => []
       end)
    mapped.

(** String concatenation with a value that may be [undefined]. *)
Definition concat_text (s : jsstring) (t : option jsstring) : jsstring :=
  match t with
  | Some t => s ++ t
  | None => s ++ str "undefined"
  end.

Definition show_progress (id : nat) (s : Store) (prev : list ChatMessage) :=
  map_last
    (fun msg => {| sender := sender msg;
                   text := fullText (locals_of id s);
                   sources := Some (allSources (locals_of id s)) |})
    prev.

(** One turn of the [for await] loop. *)
Definition on_chunk (id : nat) (chunk : Chunk) (c : Component) : Component :=
  let l := locals_of id (store c) in
  let fullText' := concat_text (fullText l) (chunk_text chunk) in
  let allSources' :=
    match groundingChunks chunk with
    | Some gs => allSources l ++ new_sources (allSources l) (map to_source gs)
    | None => allSources l
    end in
  let c :=
    with_store
      (store_set id {| fullText := fullText'; allSources := allSources' |}
         (store c)) c in
  dispatch (setMessages_fn (show_progress id)) c.

Definition show_failure (_ : Store) (prev : list ChatMessage) :=
  map_last
    (fun msg => {| sender := sender msg;
                   text := str "Sorry, I encountered an error. Please try again.";
                   sources := sources msg |})
    prev.

(** The [catch] and [finally] blocks. *)
Definition on_failure (c : Component) : Component :=
  dispatch (setIsLoading false) (dispatch (setMessages_fn show_failure) c).

Definition on_finished (c : Component) : Component :=
  dispatch (setIsLoading false) c.

(** What happens after [sendMessage] has suspended: chunks of the
    stream arrive, and React renders in between. *)
Inductive Event :=
| chunk_received (chunk : Chunk)
| rendered.

Definition step (id : nat) (e : Event) (c : Component) : Component :=
  match e with
  | chunk_received chunk => on_chunk id chunk c
  | rendered => render c
  end.

Definition run (id : nat) (es : list Event) (c : Component) : Component :=
  fold_left (fun c e => step id e c) es c.

(** The panel as first mounted, and after its mount effect. *)
Definition mount : Component :=
  {| hooks := {| chat := false; messages := []; input := [];
                 isLoading := false; useGrounding := true |};
     updateQueue := []; store := []; trace := [] |}.

Definition greeting : ChatMessage :=
  {| sender := bot;
     text := str "Hello! I'm your AI assistant. Ask me anything, or toggle 'Use Google Search' for up-to-date information.";
     sources := None |}.

Definition mounted : Component :=
  render (dispatch (setMessages [greeting]) (dispatch (setChat true) mount)).

(** The [onChange] handler of the input field. *)
Definition onChange (value : jsstring) (c : Component) : Component :=
  dispatch (setInput value) c.

(** The user has typed "Hi". *)
Definition typed_hi : Component := render (onChange (str "Hi") mounted).

Definition text_chunk (t : string) : Chunk :=
  {| chunk_text := Some (str t); groundingChunks := None |}.

(** ** Vocabulary of the chat properties *)

(** The bot message as the variables of a call describe it. *)
Definition bot_of (l : Locals) : ChatMessage :=
  {| sender := bot; text := fullText l; sources := Some (allSources l) |}.

(** The texts of the chunks among some events. *)
Definition chunk_texts (es : list Event) : list (option jsstring) :=
  flat_map
    (fun e => match e with
              | chunk_received chunk => [chunk_text chunk]
              | rendered => []
              end)
    es.

(** The messages the next render shows, were the store [s] by then. *)
Definition pending_messages (s : Store) (c : Component) : list ChatMessage :=
  messages (fold_left (reduce s) (updateQueue c) (hooks c)).

(** The invariant of a call in progress: the list is [base], the user
    message and one bot message, which describes the call's variables. *)
Definition streaming (base : list ChatMessage) (userMessage : ChatMessage)
    (id : nat) (c : Component) : Prop :=
  (id < List.length (store c))%nat /\
  exists g : Store -> ChatMessage,
    (forall s, pending_messages s c = base ++ [userMessage; g s]) /\
    (forall s, sender (g s) = bot) /\
    g (store c) = bot_of (locals_of id (store c)).

(** A chunk that cites two places, the second one twice. *)
Definition cited (t u : string) : GroundingChunk :=
  {| web := Some {| place_title := Some (str t); place_uri := Some (str u) |};
     maps := None |}.

Definition cited_chunk : Chunk :=
  {| chunk_text := Some (str "See ");
     groundingChunks :=
       Some [cited "Docs" "https://a.example";
             {| web := None;
                maps := Some {| place_title := None;
                                place_uri := Some (str "https://b.example") |} |};
             {| web := Some {| place_title := Some (str "No link");
                               place_uri := None |};
                maps := None |};
             cited "Again" "https://b.example"] |}.

(** A call in progress that has already collected one source. *)
Definition one_source : Component :=
  with_store [{| fullText := str "Hi";
                 allSources := [{| title := str "Docs";
                                   uri := str "https://a.example" |}] |}]
    typed_hi.

(** What the next render commits, were the store [s] by then. *)
Definition committed (s : Store) (c : Component) : Hooks :=
  fold_left (reduce s) (updateQueue c) (hooks c).

(** The cells other than [messages]. *)
Definition flags (h : Hooks) := (chat h, input h, isLoading h, useGrounding h).

(** A setter call whose outcome does not depend on the store. *)
Definition stable (a : Action) : Prop :=
  match a with
  | setMessages_fn f => forall s s' prev, f s prev = f s' prev
  | _ => True
  end.

(** The condition under which the spinner bubble is rendered:
    [isLoading && messages[messages.length - 1]?.sender === 'user']. *)
Definition spinner_shown (h : Hooks) : bool :=
  isLoading h
  && match last (map Some (messages h)) None with
     | Some msg => match sender msg with user => true | bot => false end
     | None => false
     end.

(** A source as the stream reports it is well formed when it has a
    title and a uri. *)
Definition titled_and_located (s : GroundingSource) : Prop :=
  title s <> [] /\ uri s <> [].

End Chatbot.

(* ===================================================================== *)
(** * The video generator of the creative suite *)
(* ===================================================================== *)

(** [s.includes(p)] *)
Fixpoint startsWith (p s : jsstring) : bool :=
  match p, s with
  | [], _ => true
  | a :: p', b :: s' => N.eqb a b && startsWith p' s'
  | _ :: _, [] => false
  end.

Fixpoint includes (s p : jsstring) : bool :=
  startsWith p s || match s with [] => false | _ :: s' => includes s' p end.

Module VideoGenerator.

Inductive AspectRatio := landscape (* '16:9' *) | portrait (* '9:16' *).

(** A [File], by its name. *)
Record File := { name : jsstring }.

(** The [useState] cells, as of the last render. *)
Record Hooks := {
  prompt : jsstring;
  startImageFile : option File;
  aspectRatio : AspectRatio;
  videoUrl : jsstring;
  isLoading : bool;
  error : jsstring;
  apiKeySelected : bool
}.

Inductive Action :=
| setPrompt (v : jsstring)
| setStartImageFile (v : option File)
| setAspectRatio (v : AspectRatio)
| setVideoUrl (v : jsstring)
| setIsLoading (v : bool)
| setError (v : jsstring)
| setApiKeySelected (v : bool).

Inductive Effect :=
| preventDefault
| hasSelectedApiKey
| openSelectKey
| generateVideo (prompt : jsstring) (aspectRatio : AspectRatio)
    (startImage : option File).

(** [aistudio] tells whether [window.aistudio] is defined. *)
Record Component := {
  hooks : Hooks;
  updateQueue : list Action;
  aistudio : bool;
  trace : list Effect
}.

Definition reduce (_ : unit) (h : Hooks) (a : Action) : Hooks :=
  match a with
  | setPrompt v =>
      {| prompt := v; startImageFile := startImageFile h;
         aspectRatio := aspectRatio h; videoUrl := videoUrl h;
         isLoading := isLoading h; error := error h;
         apiKeySelected := apiKeySelected h |}
  | setStartImageFile v =>
      {| prompt := prompt h; startImageFile := v;
         aspectRatio := aspectRatio h; videoUrl := videoUrl h;
         isLoading := isLoading h; error := error h;
         apiKeySelected := apiKeySelected h |}
  | setAspectRatio v =>
      {| prompt := prompt h; startImageFile := startImageFile h;
         aspectRatio := v; videoUrl := videoUrl h;
         isLoading := isLoading h; error := error h;
         apiKeySelected := apiKeySelected h |}
  | setVideoUrl v =>
      {| prompt := prompt h; startImageFile := startImageFile h;
         aspectRatio := aspectRatio h; videoUrl := v;
         isLoading := isLoading h; error := error h;
         apiKeySelected := apiKeySelected h |}
  | setIsLoading v =>
      {| prompt := prompt h; startImageFile := startImageFile h;
         aspectRatio := aspectRatio h; videoUrl := videoUrl h;
         isLoading := v; error := error h;
         apiKeySelected := apiKeySelected h |}
  | setError v =>
      {| prompt := prompt h; startImageFile := startImageFile h;
         aspectRatio := aspectRatio h; videoUrl := videoUrl h;
         isLoading := isLoading h; error := v;
         apiKeySelected := apiKeySelected h |}
  | setApiKeySelected v =>
      {| prompt := prompt h; startImageFile := startImageFile h;
         aspectRatio := aspectRatio h; videoUrl := videoUrl h;
         isLoading := isLoading h; error := error h;
         apiKeySelected := v |}
  end.

Definition AspectRatio_eqb (a b : AspectRatio) : bool :=
  match a, b with
  | landscape, landscape | portrait, portrait => true
  | _, _ => false
  end.

(** A [File] handed to the setter is an object of its own. *)
Definition unchanged (h : Hooks) (a : Action) : bool :=
  match a with
  | setPrompt v => jsstring_eqb v (prompt h)
  | setStartImageFile _ => false
  | setAspectRatio v => AspectRatio_eqb v (aspectRatio h)
  | setVideoUrl v => jsstring_eqb v (videoUrl h)
  | setIsLoading v => Bool.eqb v (isLoading h)
  | setError v => jsstring_eqb v (error h)
  | setApiKeySelected v => Bool.eqb v (apiKeySelected h)
  end.

Definition eager (_ : unit) (_ : Hooks) (a : Action) : Action := a.

Definition with_fiber (f : Hooks * list Action) c :=
  {| hooks := fst f; updateQueue := snd f; aistudio := aistudio c;
     trace := trace c |}.

Definition call (e : Effect) c :=
  {| hooks := hooks c; updateQueue := updateQueue c; aistudio := aistudio c;
     trace := trace c ++ [e] |}.

Definition dispatch (a : Action) (c : Component) : Component :=
  with_fiber (React.dispatch unchanged eager tt a (hooks c, updateQueue c)) c.

Definition render (c : Component) : Component :=
  with_fiber (React.render reduce tt (hooks c, updateQueue c)) c.

Inductive Suspended :=
| returned (c : Component)
| awaiting (c : Component).

(** The component as first rendered, and its mount effect:
    [window.aistudio?.hasSelectedApiKey().then(setApiKeySelected)]. *)
Definition mount (aistudio : bool) : Component :=
  {| hooks := {| prompt := []; startImageFile := None;
                 aspectRatio := landscape; videoUrl := []; isLoading := false;
                 error := []; apiKeySelected := false |};
     updateQueue := []; aistudio := aistudio; trace := [] |}.

Definition useEffect (c : Component) : Component :=
  if aistudio c then call hasSelectedApiKey c else c.

Definition hasSelectedApiKey_then (v : bool) (c : Component) : Component :=
  dispatch (setApiKeySelected v) c.

(** [handleSelectKey], up to its [await] and after it.  When
    [openSelectKey] rejects the handler ends there. *)
Definition handleSelectKey (c : Component) : Component :=
  if aistudio c then call openSelectKey c else c.

Definition handleSelectKey_resume (c : Component) : Component :=
  dispatch (setApiKeySelected true) c.

(** [handleFileChange], on [e.target.files?.[0]]. *)
Definition handleFileChange (file : option File) (c : Component) : Component :=
  match file with
  | Some f => dispatch (setStartImageFile (Some f)) c
  | None => c
  end.

Definition is_null {A} (x : option A) : bool :=
  match x with Some _ => false | None => true end.

(** [handleSubmit], up to [await generateVideo(...)]. *)
Definition handleSubmit (c : Component) : Suspended :=
  let c := call preventDefault c in
  if negb (truthy (prompt (hooks c))) && is_null (startImageFile (hooks c))
  then returned c
  else
    let c := dispatch (setIsLoading true) c in
    let c := dispatch (setVideoUrl []) c in
    let c := dispatch (setError []) c in
    awaiting
      (call (generateVideo (prompt (hooks c)) (aspectRatio (hooks c))
               (startImageFile (hooks c))) c).

(** What [generateVideo] may throw. *)
Inductive Thrown :=
| Error (message : jsstring)
| not_an_Error.

Inductive Outcome :=
| resolved (url : jsstring)
| rejected (err : Thrown).

(** The rest of [handleSubmit]. *)
Definition handleSubmit_resume (o : Outcome) (c : Component) : Component :=
  let c :=
    match o with
    | resolved url => dispatch (setVideoUrl url) c
    | rejected err =>
        let message :=
          match err with
          | Error m => m
          | not_an_Error => str "An unknown error occurred"
          end in
        if includes message (str "Requested entity was not found")
        then
          dispatch
            (setError (str "API Key not valid. Please select a valid API key."))
            (dispatch (setApiKeySelected false) c)
        else dispatch (setError message) c
    end in
  dispatch (setIsLoading false) c.

(** What the user may do in the form while a video is generated; the
    submit button is disabled then. *)
Inductive Event :=
| prompt_changed (value : jsstring)
| file_changed (file : option File)
| aspectRatio_changed (v : AspectRatio)
| rendered.

Definition step (e : Event) (c : Component) : Component :=
  match e with
  | prompt_changed value => dispatch (setPrompt value) c
  | file_changed file => handleFileChange file c
  | aspectRatio_changed v => dispatch (setAspectRatio v) c
  | rendered => render c
  end.

Definition run (es : list Event) (c : Component) : Component :=
  fold_left (fun c e => step e c) es c.

(** What the component shows. *)
Inductive View :=
| key_required
| form (submit_disabled generating : bool)
    (shown_error shown_video : option jsstring).

Definition shown (s : jsstring) : option jsstring :=
  if truthy s then Some s else None.

Definition view (h : Hooks) : View :=
  if negb (apiKeySelected h) then key_required
  else
    form
      (isLoading h
       || (negb (truthy (prompt h)) && is_null (startImageFile h)))
      (isLoading h) (shown (error h)) (shown (videoUrl h)).

(** What the next render commits. *)
Definition committed (c : Component) : Hooks :=
  fold_left (reduce tt) (updateQueue c) (hooks c).

(** The cells the form's fields do not set. *)
Definition result (h : Hooks) :=
  (videoUrl h, isLoading h, error h, apiKeySelected h).

(** The key is selected and a prompt is typed. *)
Definition prompted : Component :=
  render (dispatch (setPrompt (str "A hummingbird"))
            (render (hasSelectedApiKey_then true (useEffect (mount true))))).

End VideoGenerator.

(* ===================================================================== *)
(** * The resume analyzer *)
(* ===================================================================== *)

Module ResumeHelper.

Record AnalysisResult := {
  score : option Q;
  missingKeywords : option (list jsstring);
  summarySuggestion : option jsstring;
  experienceAdvice : option jsstring;
  error : option jsstring
}.

Inductive Tab := analyzer | template.

(** The [useState] cells, as of the last render. *)
Record Hooks := {
  resumeText : jsstring;
  jdText : jsstring;
  isLoading : bool;
  analysis : option AnalysisResult;
  activeTab : Tab
}.

Inductive Action :=
| setResumeText (v : jsstring)
| setJdText (v : jsstring)
| setIsLoading (v : bool)
| setAnalysis (v : option AnalysisResult)
| setActiveTab (v : Tab).

Inductive Effect :=
| analyzeResumeWithJd (resumeText jdText : jsstring).

Record Component := {
  hooks : Hooks;
  updateQueue : list Action;
  trace : list Effect
}.

Definition reduce (_ : unit) (h : Hooks) (a : Action) : Hooks :=
  match a with
  | setResumeText v =>
      {| resumeText := v; jdText := jdText h; isLoading := isLoading h;
         analysis := analysis h; activeTab := activeTab h |}
  | setJdText v =>
      {| resumeText := resumeText h; jdText := v; isLoading := isLoading h;
         analysis := analysis h; activeTab := activeTab h |}
  | setIsLoading v =>
      {| resumeText := resumeText h; jdText := jdText h; isLoading := v;
         analysis := analysis h; activeTab := activeTab h |}
  | setAnalysis v =>
      {| resumeText := resumeText h; jdText := jdText h;
         isLoading := isLoading h; analysis := v; activeTab := activeTab h |}
  | setActiveTab v =>
      {| resumeText := resumeText h; jdText := jdText h;
         isLoading := isLoading h; analysis := analysis h; activeTab := v |}
  end.

Definition Tab_eqb (a b : Tab) : bool :=
  match a, b with
  | analyzer, analyzer | template, template => true
  | _, _ => false
  end.

(** An analysis handed to the setter is an object of its own; [null]
    is [null]. *)
Definition unchanged (h : Hooks) (a : Action) : bool :=
  match a with
  | setResumeText v => jsstring_eqb v (resumeText h)
  | setJdText v => jsstring_eqb v (jdText h)
  | setIsLoading v => Bool.eqb v (isLoading h)
  | setAnalysis v =>
      match v, analysis h with
      | None, None => true
      | _, _ => false
      end
  | setActiveTab v => Tab_eqb v (activeTab h)
  end.

Definition eager (_ : unit) (_ : Hooks) (a : Action) : Action := a.

Definition with_fiber (f : Hooks * list Action) c :=
  {| hooks := fst f; updateQueue := snd f; trace := trace c |}.

Definition call (e : Effect) c :=
  {| hooks := hooks c; updateQueue := updateQueue c;
     trace := trace c ++ [e] |}.

Definition dispatch (a : Action) (c : Component) : Component :=
  with_fiber (React.dispatch unchanged eager tt a (hooks c, updateQueue c)) c.

Definition render (c : Component) : Component :=
  with_fiber (React.render reduce tt (hooks c, updateQueue c)) c.

Definition mount : Component :=
  {| hooks := {| resumeText := []; jdText := []; isLoading := false;
                 analysis := None; activeTab := analyzer |};
     updateQueue := []; trace := [] |}.

(** [{ error: message }] *)
Definition error_only (message : string) : AnalysisResult :=
  {| score := None; missingKeywords := None; summarySuggestion := None;
     experienceAdvice := None; error := Some (str message) |}.

Inductive Suspended :=
| returned (c : Component)
| awaiting (c : Component).

(** [handleAnalyze], up to [await analyzeResumeWithJd(...)]. *)
Definition handleAnalyze (c : Component) : Suspended :=
  if negb (truthy (trim (resumeText (hooks c))))
     || negb (truthy (trim (jdText (hooks c))))
  then
    returned
      (dispatch
         (setAnalysis
            (Some (error_only
                     "Please paste both your resume and the job description.")))
         c)
  else
    let c := dispatch (setIsLoading true) c in
    let c := dispatch (setAnalysis None) c in
    awaiting
      (call (analyzeResumeWithJd (resumeText (hooks c)) (jdText (hooks c))) c).

(** The request resolves with a text that [JSON.parse] turns into an
    object or into [null], or the request or the parse throws. *)
Inductive Outcome :=
| parsed (resultJson : option AnalysisResult)
| thrown.

(** The rest of [handleAnalyze]. *)
Definition handleAnalyze_resume (o : Outcome) (c : Component) : Component :=
  let c :=
    match o with
    | parsed resultJson => dispatch (setAnalysis resultJson) c
    | thrown =>
        dispatch
          (setAnalysis
             (Some (error_only
                      "Failed to parse the analysis. The model may have returned an unexpected format.")))
          c
    end in
  dispatch (setIsLoading false) c.

(** What the user may do while an analysis runs; the analyze button is
    disabled then. *)
Inductive Event :=
| resumeText_changed (value : jsstring)
| jdText_changed (value : jsstring)
| tab_clicked (tab : Tab)
| rendered.

Definition step (e : Event) (c : Component) : Component :=
  match e with
  | resumeText_changed value => dispatch (setResumeText value) c
  | jdText_changed value => dispatch (setJdText value) c
  | tab_clicked tab => dispatch (setActiveTab tab) c
  | rendered => render c
  end.

Definition run (es : list Event) (c : Component) : Component :=
  fold_left (fun c e => step e c) es c.

(** What the next render commits. *)
Definition committed (c : Component) : Hooks :=
  fold_left (reduce tt) (updateQueue c) (hooks c).

(** Both texts are pasted; the job description ends in a space. *)
Definition pasted : Component :=
  render (dispatch (setJdText (str "Rocq engineer "))
            (dispatch (setResumeText (str "Ten years of proofs")) mount)).

End ResumeHelper.
(* ===================================================================== *)
(** * Facts about trimming *)
(* ===================================================================== *)

Lemma trimStart_all_ws (s : jsstring) :
  forallb isWhiteSpace s = true -> trimStart s = [].
Proof.
  induction s as [|c s IH]; simpl; [reflexivity|].
  intros H. apply andb_prop in H as [Hc Hs].
  rewrite Hc. auto.
Qed.

Lemma trimStart_nil_inv (s : jsstring) :
  trimStart s = [] -> forallb isWhiteSpace s = true.
Proof.
  induction s as [|c s IH]; simpl; [reflexivity|].
  destruct (isWhiteSpace c); simpl; [exact IH|discriminate].
Qed.

Lemma trim_nil_iff (s : jsstring) :
  trim s = [] <-> forallb isWhiteSpace s = true.
Proof.
  unfold trim, trimEnd. split.
  - intros H.
    assert (Hr : trimStart (rev (trimStart s)) = []).
    { rewrite <- (rev_involutive (trimStart (rev (trimStart s)))), H.
      reflexivity. }
    apply trimStart_nil_inv in Hr.
    assert (Hs : trimStart s = []).
    { destruct (trimStart s) as [|c t] eqn:E; [reflexivity|exfalso].
      assert (Hc : isWhiteSpace c = false).
      { clear -E. induction s as [|a s IH]; simpl in E; [discriminate|].
        destruct (isWhiteSpace a) eqn:Ea; [auto|].
        injection E as -> _. exact Ea. }
      rewrite forallb_forall in Hr.
      specialize (Hr c). rewrite Hc in Hr.
      assert (In c (rev (c :: t))) by (apply in_rev; rewrite rev_involutive; left; reflexivity).
      specialize (Hr H0). discriminate. }
    apply trimStart_nil_inv. exact Hs.
  - intros H. rewrite (trimStart_all_ws _ H). reflexivity.
Qed.

(* ===================================================================== *)
(** * The PCM codec *)
(* ===================================================================== *)

Module PCMFacts.
Import PCM.
Local Open Scope Z_scope.

Lemma ToInt16_range (x : Q) : -32768 <= ToInt16 x < 32768.
Proof.
  unfold ToInt16.
  pose proof (Z.mod_pos_bound (truncate x) 65536 eq_refl) as B.
  destruct (Z.leb_spec 32768 (truncate x mod 65536)); lia.
Qed.

Lemma ToInt16_wrap (x : Q) :
  ToInt16 x = truncate x - 65536 * ((truncate x + 32768) / 65536).
Proof.
  unfold ToInt16.
  destruct (Z.leb_spec 32768 (truncate x mod 65536));
    Z.div_mod_to_equations; lia.
Qed.

Lemma ToInt16_small (x : Q) :
  -32768 <= truncate x < 32768 -> ToInt16 x = truncate x.
Proof.
  intros H. rewrite ToInt16_wrap.
  Z.div_mod_to_equations; lia.
Qed.

Lemma truncate_scaled_range (s : Q) :
  (-1 <= s <= 1)%Q -> -32767 <= truncate (s * 32767) <= 32767.
Proof.
  destruct s as [n d]. unfold Qle, truncate; simpl.
  intros [Hlo Hhi].
  rewrite Pos.mul_1_r.
  assert (Hd : 0 < Z.pos d) by lia.
  Z.quot_rem_to_equations. nia.
Qed.

Lemma truncate_error (x : Q) : (Qabs (inject_Z (truncate x) - x) < 1)%Q.
Proof.
  destruct x as [n d]. unfold Qlt, truncate, Qminus, Qplus, Qopp, inject_Z, Qabs.
  simpl.
  assert (Hd : 0 < Z.pos d) by lia.
  Z.quot_rem_to_equations. nia.
Qed.

Lemma sextets_complete (i : Z) : 0 <= i < 64 -> In i sextets.
Proof.
  intros H. unfold sextets. apply in_map_iff.
  exists (Z.to_nat i). split; [lia|]. apply in_seq. lia.
Qed.

Lemma base64_index_char (i : Z) :
  0 <= i < 64 -> base64_index (base64_char i) = i.
Proof.
  intros H.
  assert (A : forallb (fun i => base64_index (base64_char i) =? i) sextets = true)
    by (vm_compute; reflexivity).
  rewrite forallb_forall in A.
  apply Z.eqb_eq, A, sextets_complete, H.
Qed.

Lemma base64_char_not_pad (i : Z) :
  0 <= i < 64 -> N.eqb (base64_char i) pad = false.
Proof.
  intros H.
  assert (A : forallb (fun i => negb (N.eqb (base64_char i) pad)) sextets = true)
    by (vm_compute; reflexivity).
  rewrite forallb_forall in A.
  apply negb_true_iff, A, sextets_complete, H.
Qed.

(** Lists are consumed three bytes at a time. *)
Lemma list_ind3 (A : Type) (P : list A -> Prop) :
  P [] -> (forall a, P [a]) -> (forall a b, P [a; b]) ->
  (forall a b c l, P l -> P (a :: b :: c :: l)) ->
  forall l, P l.
Proof.
  intros H0 H1 H2 H3.
  fix IH 1. intros [|a [|b [|c l]]].
  - exact H0.
  - apply H1.
  - apply H2.
  - apply H3, IH.
Qed.

Ltac simpl_sextets :=
  repeat match goal with
         | |- context [ base64_index (base64_char ?i) ] =>
             rewrite (base64_index_char i)
               by (Z.div_mod_to_equations; lia)
         | |- context [ N.eqb (base64_char ?i) pad ] =>
             rewrite (base64_char_not_pad i)
               by (Z.div_mod_to_equations; lia)
         end.

Lemma decode_encode (bytes : list Z) :
  Forall is_byte bytes -> decode (encode bytes) = bytes.
Proof.
  induction bytes as [|a|a b|a b c l IH] using list_ind3; intros H.
  - reflexivity.
  - inversion_clear H as [|? ? Ha _]. unfold is_byte in Ha.
    cbn [encode decode]. rewrite N.eqb_refl. simpl_sextets.
    f_equal. Z.div_mod_to_equations; lia.
  - inversion_clear H as [|? ? Ha H']. inversion_clear H' as [|? ? Hb _].
    unfold is_byte in Ha, Hb.
    cbn [encode decode]. rewrite N.eqb_refl. simpl_sextets.
    repeat f_equal; Z.div_mod_to_equations; lia.
  - inversion_clear H as [|? ? Ha H']. inversion_clear H' as [|? ? Hb H''].
    inversion_clear H'' as [|? ? Hc Hl].
    unfold is_byte in Ha, Hb, Hc.
    cbn [encode decode app]. simpl_sextets. rewrite (IH Hl).
    repeat f_equal; Z.div_mod_to_equations; lia.
Qed.

Lemma Uint8Array_bytes (buffer : list Z) : Forall is_byte (Uint8Array buffer).
Proof.
  induction buffer as [|v l IH]; cbn; [constructor|].
  unfold is_byte.
  repeat constructor; try (Z.div_mod_to_equations; lia). exact IH.
Qed.

Lemma samples_of_Uint8Array (buffer : list Z) :
  Forall (fun v => -32768 <= v < 32768) buffer ->
  samples_of_bytes (Uint8Array buffer) = buffer.
Proof.
  induction 1 as [|v l Hv _ IH]; [reflexivity|].
  cbn [Uint8Array flat_map bytes_of_int16 app samples_of_bytes].
  fold (Uint8Array l). rewrite IH. f_equal.
  destruct (Z.leb_spec 32768 (v mod 65536 mod 256 + 256 * (v mod 65536 / 256)));
    Z.div_mod_to_equations; lia.
Qed.

(** The payload carries the stored samples exactly, whatever the input. *)
Lemma decode_payload_onaudioprocess (inputData : list Q) :
  decode_payload (onaudioprocess inputData) = int16 inputData.
Proof.
  unfold decode_payload, onaudioprocess; cbn [data].
  rewrite decode_encode by apply Uint8Array_bytes.
  apply samples_of_Uint8Array.
  unfold int16, int16_of_sample. apply Forall_forall.
  intros v Hv. apply in_map_iff in Hv as [s [<- _]]. apply ToInt16_range.
Qed.

Lemma int16_of_sample_exact (s : Q) :
  (-1 <= s <= 1)%Q -> int16_of_sample s = truncate (s * 32767).
Proof.
  intros H. apply ToInt16_small.
  pose proof (truncate_scaled_range s H). lia.
Qed.

(** C4.  Encoding stores [sample * 32767] into a signed 16-bit slot with
    no clamping: the stored value always lies in the signed 16-bit range
    and is the truncation of [sample * 32767] reduced modulo 2^16 into
    that range; for a sample in [-1, 1] it is the truncation itself. *)
Theorem C4_encode_wraps_without_clamping (s : Q) :
  -32768 <= int16_of_sample s < 32768 /\
  int16_of_sample s =
    truncate (s * 32767) - 65536 * ((truncate (s * 32767) + 32768) / 65536) /\
  ((-1 <= s <= 1)%Q -> int16_of_sample s = truncate (s * 32767)).
Proof.
  unfold int16_of_sample. split; [apply ToInt16_range|].
  split; [apply ToInt16_wrap|].
  apply int16_of_sample_exact.
Qed.

Lemma C4_witness :
  (-1 <= 1 # 2 <= 1)%Q /\ int16_of_sample (1 # 2) = truncate ((1 # 2) * 32767).
Proof.
  assert (H : (-1 <= 1 # 2 <= 1)%Q) by (split; discriminate).
  split; [exact H|].
  exact (proj2 (proj2 (C4_encode_wraps_without_clamping (1 # 2))) H).
Defined.

(** A sample of 2 is stored as -2, not as the largest 16-bit value. *)
Example encode_wraps_at_2 : int16_of_sample 2 = -2.
Proof. reflexivity. Qed.

(** C5.  For samples in [-1, 1], decoding the encoded payload yields the
    16-bit quantization of the samples: the decoded block is the list of
    truncations of [sample * 32767], and each decoded sample is within
    one unit of the 16-bit scale of its source sample. *)
Theorem C5_round_trip_within_one_lsb (samples : list Q) :
  Forall (fun s => (-1 <= s <= 1)%Q) samples ->
  decode_payload (onaudioprocess samples)
  = map (fun s => truncate (s * 32767)) samples /\
  Forall2 (fun s q => (Qabs (inject_Z q - s * 32767) < 1)%Q)
    samples (decode_payload (onaudioprocess samples)).
Proof.
  intros H. rewrite decode_payload_onaudioprocess.
  assert (E : int16 samples = map (fun s => truncate (s * 32767)) samples).
  { unfold int16. apply map_ext_in. intros s Hs.
    rewrite Forall_forall in H.
    apply int16_of_sample_exact, H, Hs. }
  split; [exact E|]. rewrite E. clear.
  induction samples as [|s l IH]; constructor; [apply truncate_error|exact IH].
Qed.

Lemma C5_witness :
  decode_payload (onaudioprocess [1%Q; (-1)%Q; (1 # 3)%Q])
  = map (fun s => truncate (s * 32767)) [1%Q; (-1)%Q; (1 # 3)%Q] /\
  Forall2 (fun s q => (Qabs (inject_Z q - s * 32767) < 1)%Q)
    [1%Q; (-1)%Q; (1 # 3)%Q] (decode_payload (onaudioprocess [1%Q; (-1)%Q; (1 # 3)%Q])).
Proof.
  apply (C5_round_trip_within_one_lsb [1%Q; (-1)%Q; (1 # 3)%Q]).
  repeat constructor; discriminate.
Defined.

End PCMFacts.

(* ===================================================================== *)
(** * The interview component: framing *)
(* ===================================================================== *)

Module InterviewFacts.
Import Interview.

(** What a setter call leaves alone. *)
Lemma dispatch_frame (a : Action) (c : Component) :
  hooks (dispatch a c) = hooks c /\ refs (dispatch a c) = refs c /\
  created (dispatch a c) = created c /\ trace (dispatch a c) = trace c /\
  history (dispatch a c) = history c.
Proof.
  unfold dispatch, React.dispatch, with_fiber; cbn.
  destruct (updateQueue c); [destruct (unchanged (hooks c) a)|]; cbn; auto.
Qed.

Lemma render_frame (c : Component) :
  refs (render c) = refs c /\ created (render c) = created c /\
  trace (render c) = trace c /\ history (render c) = history c.
Proof. unfold render, React.render, with_fiber; cbn; auto. Qed.

Lemma hooks_render (c : Component) : hooks (render c) = committed c.
Proof. reflexivity. Qed.

Lemma jsstring_eqb_eq (a b : jsstring) : jsstring_eqb a b = true -> a = b.
Proof.
  unfold jsstring_eqb. destruct (list_eq_dec N.eq_dec a b); [auto|discriminate].
Qed.

Lemma InterviewState_eqb_eq a b : InterviewState_eqb a b = true -> a = b.
Proof. destruct a, b; cbn; congruence. Qed.

Lemma error_eqb_eq a b : error_eqb a b = true -> a = b.
Proof.
  destruct a, b; cbn; try congruence.
  intros H. apply jsstring_eqb_eq in H. congruence.
Qed.

Lemma unchanged_reduce (r : Refs) (h : Hooks) (a : Action) :
  unchanged h a = true -> reduce r h a = h.
Proof.
  destruct h, a; cbn; intros H; try discriminate.
  - apply InterviewState_eqb_eq in H. congruence.
  - apply jsstring_eqb_eq in H. congruence.
  - apply jsstring_eqb_eq in H. congruence.
  - apply error_eqb_eq in H. congruence.
  - apply Bool.eqb_prop in H. congruence.
Qed.

(** A setter call with a value: the next render commits the value on top
    of what was pending. *)
Lemma committed_dispatch_plain (a : Action) (c : Component) :
  plain a -> committed (dispatch a c) = reduce (refs c) (committed c) a.
Proof.
  intros P. unfold committed, dispatch, React.dispatch, with_fiber; cbn.
  destruct (updateQueue c) as [|a0 q] eqn:E; cbn.
  - destruct (unchanged (hooks c) a) eqn:U; cbn.
    + symmetry. apply unchanged_reduce, U.
    + destruct a; cbn in *; tauto || reflexivity.
  - rewrite fold_left_app. reflexivity.
Qed.

Lemma reduce_same_but_transcripts r r' h h' a :
  same_but_transcripts h h' ->
  same_but_transcripts (reduce r h a) (reduce r' h' a).
Proof.
  unfold same_but_transcripts. intros (H1 & H2 & H3 & H4 & H5).
  destruct a; cbn; auto.
Qed.

Lemma fold_same_but_transcripts r r' q : forall h h',
  same_but_transcripts h h' ->
  same_but_transcripts (fold_left (reduce r) q h) (fold_left (reduce r') q h').
Proof.
  induction q as [|a q IH]; cbn; intros h h' H; [exact H|].
  apply IH, reduce_same_but_transcripts, H.
Qed.

Lemma same_but_transcripts_refl h : same_but_transcripts h h.
Proof. unfold same_but_transcripts; auto. Qed.

Lemma committed_update_refs (g : Refs -> Refs) c :
  same_but_transcripts (committed (update_refs g c)) (committed c).
Proof.
  unfold committed, update_refs, with_refs; cbn.
  apply fold_same_but_transcripts, same_but_transcripts_refl.
Qed.

Lemma committed_call e c : committed (call e c) = committed c.
Proof. reflexivity. Qed.

Lemma committed_record o c : committed (record o c) = committed c.
Proof. reflexivity. Qed.

End InterviewFacts.

(* ===================================================================== *)
(** * The session controller *)
(* ===================================================================== *)

Module Controller.
Import Interview InterviewFacts.

Lemma truthy_false (s : jsstring) : truthy s = false <-> s = [].
Proof. destruct s; cbn; split; congruence. Qed.

Lemma guard_fails (c : Component) :
  negb (truthy (trim (jobRole (hooks c))))
  || negb (truthy (trim (jobDescription (hooks c)))) = true
  <-> trim (jobRole (hooks c)) = [] \/ trim (jobDescription (hooks c)) = [].
Proof.
  rewrite orb_true_iff, !negb_true_iff, !truthy_false. reflexivity.
Qed.

(** The state [startInterview] leaves at its [await] commits
    [in_progress]. *)
Lemma startInterview_commits_in_progress (c c' : Component) k :
  startInterview c = awaiting k c' ->
  interviewState (committed c') = in_progress /\
  trace c' = trace c ++ [getUserMedia] /\
  sessionPromiseRef (refs c') = sessionPromiseRef (refs c).
Proof.
  unfold startInterview.
  destruct (negb (truthy (trim (jobRole (hooks c))))
            || negb (truthy (trim (jobDescription (hooks c))))); [discriminate|].
  intros E. injection E as _ <-.
  split; [|split].
  - rewrite committed_call. unfold clear_sources.
    rewrite (proj1 (committed_update_refs _ _)), committed_record.
    rewrite !(proj1 (committed_update_refs _ _)).
    rewrite committed_dispatch_plain by exact I. reflexivity.
  - unfold clear_sources. cbn [trace call record update_refs with_refs].
    rewrite !(proj1 (proj2 (proj2 (proj2 (dispatch_frame _ _))))).
    reflexivity.
  - unfold clear_sources.
    cbn [refs call record update_refs with_refs sessionPromiseRef set_sourcesRef
           set_nextStartTimeRef set_currentOutputTranscriptionRef
           set_currentInputTranscriptionRef].
    rewrite !(proj1 (proj2 (dispatch_frame _ _))).
    reflexivity.
Qed.

(** What the [catch] block leaves, whatever happened during the
    [await]. *)
Lemma startInterview_denied (k : jsstring * jsstring) (c : Component) :
  let c' := startInterview_resume k NotAllowedError c in
  interviewState (committed c') = error /\
  errorMessage (committed c')
  = Some (str "Could not access microphone. Please check permissions.") /\
  trace c' = trace c /\ refs c' = refs c.
Proof.
  intros c'. subst c'. unfold startInterview_resume.
  split; [|split; [|split]].
  - rewrite committed_dispatch_plain by exact I. reflexivity.
  - rewrite !committed_dispatch_plain by exact I. reflexivity.
  - rewrite !(proj1 (proj2 (proj2 (proj2 (dispatch_frame _ _))))). reflexivity.
  - rewrite !(proj1 (proj2 (dispatch_frame _ _))). reflexivity.
Qed.

(** The filled-in setup form. *)
Example filled_in_hooks :
  hooks filled_in
  = {| interviewState := setup; jobRole := str "Engineer";
       jobDescription := str "Go services"; errorMessage := None;
       transcripts := []; isTalking := false |}.
Proof. reflexivity. Qed.

(** C6, as stated, fails: with the form filled in, the state left at the
    microphone request already commits [in_progress]. *)
Lemma C6_counterexample :
  ~ (forall c k c',
        startInterview c = awaiting k c' ->
        interviewState (hooks (render c')) <> in_progress).
Proof.
  intros H.
  pose (c := filled_in).
  assert (E : exists k c', startInterview c = awaiting k c')
    by (eexists; eexists; reflexivity).
  destruct E as (k & c' & E).
  apply (H c k c' E).
  apply (startInterview_commits_in_progress c c' k E).
Qed.

(** C6, amended.  When the microphone is denied, the controller has
    already moved to [in_progress] before it asked for the microphone;
    the denial then moves it to [error] with the microphone message set,
    and no connection is attempted: nothing is called after
    [getUserMedia] and no session is stored. *)
Theorem C6_microphone_denied (c c' : Component) (k : jsstring * jsstring) :
  startInterview c = awaiting k c' ->
  interviewState (hooks (render c')) = in_progress /\
  trace c' = trace c ++ [getUserMedia] /\
  sessionPromiseRef (refs c') = sessionPromiseRef (refs c) /\
  forall c1,
    c1 = c' \/ c1 = render c' ->
    let c2 := startInterview_resume k NotAllowedError c1 in
    interviewState (hooks (render c2)) = error /\
    errorMessage (hooks (render c2))
    = Some (str "Could not access microphone. Please check permissions.") /\
    trace c2 = trace c ++ [getUserMedia] /\
    sessionPromiseRef (refs c2) = sessionPromiseRef (refs c) /\
    view (hooks (render c2)) = renderFinished (transcripts (hooks (render c2))).
Proof.
  intros E.
  destruct (startInterview_commits_in_progress c c' k E) as (H1 & H2 & H3).
  split; [exact H1|]. split; [exact H2|]. split; [exact H3|].
  intros c1 H c2. subst c2. split; [|split; [|split; [|split]]].
  - apply (startInterview_denied k c1).
  - apply (startInterview_denied k c1).
  - destruct (startInterview_denied k c1) as (_ & _ & -> & _).
    destruct H as [-> | ->]; [exact H2|].
    rewrite (proj1 (proj2 (proj2 (render_frame c')))). exact H2.
  - destruct (startInterview_denied k c1) as (_ & _ & _ & ->).
    destruct H as [-> | ->]; [exact H3|].
    rewrite (proj1 (render_frame c')). exact H3.
  - unfold view. rewrite hooks_render.
    rewrite (proj1 (startInterview_denied k c1)). reflexivity.
Qed.

Lemma C6_witness :
  exists k c',
    startInterview filled_in = awaiting k c' /\
    interviewState (hooks (render c')) = in_progress /\
    interviewState
      (hooks (render (startInterview_resume k NotAllowedError (render c'))))
    = error.
Proof.
  eexists. eexists. split; [reflexivity|].
  match goal with
  | |- interviewState (hooks (render ?x)) = _ /\ _ =>
      pose proof (C6_microphone_denied filled_in x _ eq_refl) as (H1 & _ & _ & H4)
  end.
  split; [exact H1|].
  apply (H4 _ (or_intror eq_refl)).
Defined.

(** C7.  [startInterview] moves the controller to [in_progress] only
    when the role and the description are both non-empty after trimming;
    if either trims to empty the call sets the validation message and
    nothing else: the interview state stays what it was (in [setup] the
    form then shows the message), nothing is called and no session is
    stored. *)
Theorem C7_start_requires_role_and_description (c : Component) :
  (trim (jobRole (hooks c)) = [] \/ trim (jobDescription (hooks c)) = [] ->
   exists c',
     startInterview c = returned c' /\
     interviewState (hooks (render c')) = interviewState (hooks (render c)) /\
     errorMessage (hooks (render c'))
     = Some (str "Please fill in both job role and description.") /\
     (interviewState (hooks (render c)) = setup ->
      view (hooks (render c'))
      = renderSetup (Some (str "Please fill in both job role and description."))) /\
     trace c' = trace c /\ refs c' = refs c)
  /\
  (forall k c',
     startInterview c = awaiting k c' ->
     trim (jobRole (hooks c)) <> [] /\ trim (jobDescription (hooks c)) <> [] /\
     interviewState (hooks (render c')) = in_progress).
Proof.
  split.
  - intros G. apply guard_fails in G.
    unfold startInterview. rewrite G.
    eexists. split; [reflexivity|].
    rewrite !hooks_render, committed_dispatch_plain by exact I.
    split; [reflexivity|]. split; [reflexivity|].
    split; [|split; apply dispatch_frame].
    intros S. unfold view. cbn [reduce interviewState errorMessage].
    rewrite S. reflexivity.
  - intros k c' E.
    assert (G : ~ (trim (jobRole (hooks c)) = []
                   \/ trim (jobDescription (hooks c)) = [])).
    { rewrite <- guard_fails. unfold startInterview in E.
      destruct (negb (truthy (trim (jobRole (hooks c))))
                || negb (truthy (trim (jobDescription (hooks c)))));
        [discriminate E|discriminate]. }
    split; [tauto|]. split; [tauto|].
    apply (startInterview_commits_in_progress c c' k E).
Qed.

Lemma C7_witness :
  exists c',
    startInterview mount = returned c' /\
    interviewState (hooks (render c')) = interviewState (hooks (render mount)) /\
    errorMessage (hooks (render c'))
    = Some (str "Please fill in both job role and description.") /\
    (interviewState (hooks (render mount)) = setup ->
     view (hooks (render c'))
     = renderSetup (Some (str "Please fill in both job role and description."))) /\
    trace c' = trace mount /\ refs c' = refs mount.
Proof.
  apply (proj1 (C7_start_requires_role_and_description mount)).
  left. reflexivity.
Defined.

End Controller.

(* ===================================================================== *)
(** * The playback scheduler *)
(* ===================================================================== *)

Module Playback.
Import Interview InterviewFacts.

Lemma playback_dispatch a c : playback (dispatch a c) = playback c.
Proof.
  unfold playback.
  destruct (dispatch_frame a c) as (_ & -> & -> & -> & ->). reflexivity.
Qed.

Lemma playback_input (f : Refs -> jsstring) c :
  playback (update_refs (fun r => set_currentInputTranscriptionRef (f r) r) c)
  = playback c.
Proof. reflexivity. Qed.

Lemma playback_output (f : Refs -> jsstring) c :
  playback (update_refs (fun r => set_currentOutputTranscriptionRef (f r) r) c)
  = playback c.
Proof. reflexivity. Qed.

(** The transcript part of the handler does not touch the scheduler. *)
Lemma playback_transcript_part m c : playback (transcript_part m c) = playback c.
Proof.
  unfold transcript_part, on_turnComplete, on_outputTranscription,
    on_inputTranscription.
  destruct (inputTranscription m), (outputTranscription m), (turnComplete m);
    repeat match goal with
           | |- context [ if ?b then _ else _ ] => destruct b
           end;
    repeat first
      [ rewrite playback_dispatch
      | rewrite (playback_input (fun _ => []))
      | rewrite (playback_output (fun _ => []))
      | rewrite (playback_input (fun r => currentInputTranscriptionRef r ++ _))
      | rewrite (playback_output (fun r => currentOutputTranscriptionRef r ++ _)) ];
    reflexivity.
Qed.

Lemma playback_fields c c' :
  playback c = playback c' ->
  outputAudioContextRef (refs c) = outputAudioContextRef (refs c') /\
  nextStartTimeRef (refs c) = nextStartTimeRef (refs c') /\
  sourcesRef (refs c) = sourcesRef (refs c') /\
  created c = created c' /\ trace c = trace c' /\ history c = history c'.
Proof. unfold playback. intros H. injection H as -> -> -> -> -> ->. auto 6. Qed.

(** The handler in terms of its transcript part. *)
Lemma handleLiveMessage_unfold clock m c :
  handleLiveMessage clock m c =
  let c1 := transcript_part m c in
  match inlineData m with
  | Some audio =>
      if truthy (data audio) && outputAudioContextRef (refs c1) then
        awaiting {| audioBuffer_duration := duration audio;
                    message_interrupted := interrupted m |}
          (update_refs
             (fun r => set_nextStartTimeRef (Math_max (nextStartTimeRef r) clock) r)
             c1)
      else returned (on_interrupted (interrupted m) c1)
  | None => returned (on_interrupted (interrupted m) c1)
  end.
Proof. reflexivity. Qed.

(** ** One segment *)

Lemma schedule_one clock m c audio :
  inlineData m = Some audio -> truthy (data audio) = true ->
  outputAudioContextRef (refs c) = true -> interrupted m = false ->
  let c' := handleLiveMessage_whole clock m c in
  let start := Math_max (nextStartTimeRef (refs c)) clock in
  outputAudioContextRef (refs c') = true /\
  nextStartTimeRef (refs c') = start + duration audio /\
  created c' = S (created c) /\
  trace c' = trace c ++ [source_start (created c) start].
Proof.
  intros Ha Ht Hc Hi c' start. subst c' start.
  unfold handleLiveMessage_whole. rewrite handleLiveMessage_unfold. cbv zeta.
  destruct (playback_fields _ _ (playback_transcript_part m c))
    as (E1 & E2 & E3 & E4 & E5 & E6).
  rewrite Ha, Ht, E1, Hc, Hi. cbn [andb].
  unfold handleLiveMessage_resume, on_interrupted.
  cbn [message_interrupted audioBuffer_duration].
  set (c1 := transcript_part m c) in *.
  destruct (has _ _); cbn; rewrite ?E1, ?E2, ?E4, ?E5; auto.
Qed.

(** A message with nothing to play and no interruption leaves the
    scheduler alone. *)
Lemma nothing_to_play clock m c :
  playable m = false -> interrupted m = false ->
  playback (handleLiveMessage_whole clock m c) = playback c.
Proof.
  intros Hp Hi. unfold handleLiveMessage_whole.
  rewrite handleLiveMessage_unfold. cbv zeta. unfold playable in Hp.
  destruct (inlineData m) as [audio|]; rewrite ?Hp, Hi; cbn [andb on_interrupted];
    apply playback_transcript_part.
Qed.

(** ** [Math.max] *)

Lemma Math_max_ge_r a b : b <= Math_max a b.
Proof.
  unfold Math_max. destruct (Qle_bool b a) eqn:E.
  - apply Qle_bool_iff, E.
  - apply Qle_refl.
Qed.

Lemma Math_max_ge_l a b : a <= Math_max a b.
Proof.
  unfold Math_max. destruct (Qle_bool b a) eqn:E.
  - apply Qle_refl.
  - apply Qlt_le_weak, Qnot_le_lt. intros H.
    apply Qle_bool_iff in H. congruence.
Qed.

Lemma Math_max_l a b : b <= a -> Math_max a b = a.
Proof.
  intros H. unfold Math_max.
  apply Qle_bool_iff in H. rewrite H. reflexivity.
Qed.

(** ** The start times of the specification *)

Lemma starts_not_in_past segs : forall cursor,
  Forall2 (fun seg t => fst seg <= t) segs (starts cursor segs).
Proof.
  induction segs as [|[clock d] rest IH]; intros cursor; cbn; constructor.
  - apply Math_max_ge_r.
  - apply IH.
Qed.

Lemma starts_consecutive segs : forall cursor i clock d clock' d' t t',
  nth_error segs i = Some (clock, d) ->
  nth_error segs (S i) = Some (clock', d') ->
  nth_error (starts cursor segs) i = Some t ->
  nth_error (starts cursor segs) (S i) = Some t' ->
  t + d <= t' /\ (clock' <= t + d -> t' = t + d).
Proof.
  induction segs as [|[c0 d0] rest IH]; intros cursor i clock d clock' d' t t'.
  - destruct i; discriminate.
  - destruct i as [|i].
    + destruct rest as [|[c1 d1] rest']; [discriminate|]. cbn.
      intros [= -> ->] [= -> ->] [= <-] [= <-]. split.
      * apply Math_max_ge_l.
      * apply Math_max_l.
    + cbn [nth_error starts]. apply IH.
Qed.

(** ** A run of segments *)

Lemma handle_all_trace ms : forall c,
  outputAudioContextRef (refs c) = true ->
  Forall (fun tm => interrupted (snd tm) = false) ms ->
  trace (handle_all ms c)
  = trace c ++ scheduled (created c) (starts (nextStartTimeRef (refs c)) (segments ms)) /\
  nextStartTimeRef (refs (handle_all ms c))
  = fold_left (fun cursor seg => Math_max cursor (fst seg) + snd seg)
      (segments ms) (nextStartTimeRef (refs c)).
Proof.
  induction ms as [|[clock m] ms IH]; intros c Hc H.
  - cbn. rewrite app_nil_r. auto.
  - inversion_clear H as [|? ? Hi H']. cbn [fst snd] in Hi.
    cbn [handle_all fold_left fst snd segments flat_map].
    fold (handle_all ms (handleLiveMessage_whole clock m c)).
    fold (segments ms).
    destruct (playable m) eqn:Hp.
    + unfold playable in Hp.
      destruct (inlineData m) as [audio|] eqn:Ea; [|discriminate].
      destruct (schedule_one clock m c audio Ea Hp Hc Hi) as (S1 & S2 & S3 & S4).
      rewrite Hp. cbn [app starts scheduled fold_left fst snd].
      destruct (IH _ S1 H') as [T1 T2].
      rewrite T1, T2, S2, S3, S4, <- app_assoc. cbn [app]. auto.
    + destruct (playback_fields _ _ (nothing_to_play clock m c Hp Hi))
        as (E1 & E2 & _ & E4 & E5 & _).
      assert (Hc' : outputAudioContextRef
                      (refs (handleLiveMessage_whole clock m c)) = true)
        by (rewrite E1; exact Hc).
      destruct (IH _ Hc' H') as [T1 T2].
      rewrite T1, T2, E2, E4, E5.
      unfold playable in Hp.
      destruct (inlineData m) as [audio|]; rewrite ?Hp; cbn [app]; auto.
Qed.

(** C1.  Audio segments handled one after the other with no
    interruption are started at the times the specification words: each
    at the larger of the cursor and the output clock, after which the
    cursor advances by its duration.  Hence no start lies before the
    clock read for it, a segment never starts before the previous one
    ends, and it starts exactly at that end when the clock has not yet
    passed it.  Messages without audio may come in between. *)
Theorem C1_gapless_scheduling (ms : list (Q * LiveServerMessage)) (c : Component) :
  outputAudioContextRef (refs c) = true ->
  Forall (fun tm => interrupted (snd tm) = false) ms ->
  let ts := starts (nextStartTimeRef (refs c)) (segments ms) in
  trace (handle_all ms c) = trace c ++ scheduled (created c) ts /\
  nextStartTimeRef (refs (handle_all ms c))
  = fold_left (fun cursor seg => Math_max cursor (fst seg) + snd seg)
      (segments ms) (nextStartTimeRef (refs c)) /\
  Forall2 (fun seg t => fst seg <= t) (segments ms) ts /\
  forall i clock d clock' d' t t',
    nth_error (segments ms) i = Some (clock, d) ->
    nth_error (segments ms) (S i) = Some (clock', d') ->
    nth_error ts i = Some t ->
    nth_error ts (S i) = Some t' ->
    t + d <= t' /\ (clock' <= t + d -> t' = t + d).
Proof.
  intros Hc H ts. subst ts. split; [|split; [|split]].
  - apply (handle_all_trace ms c Hc H).
  - apply (handle_all_trace ms c Hc H).
  - apply starts_not_in_past.
  - apply starts_consecutive.
Qed.

(** ** Interruption *)




(** What the second half of the handler does. *)
Lemma resume_effect (k : Decoding) (c : Component) :
  let c' := handleLiveMessage_resume k c in
  let set := add (created c) (sourcesRef (refs c)) in
  trace c'
  = trace c
    ++ source_start (created c) (nextStartTimeRef (refs c))
       :: (if message_interrupted k then map source_stop set else []) /\
  sourcesRef (refs c') = (if message_interrupted k then [] else set) /\
  nextStartTimeRef (refs c')
  = (if message_interrupted k then 0
     else nextStartTimeRef (refs c) + audioBuffer_duration k) /\
  created c' = S (created c) /\
  outputAudioContextRef (refs c') = outputAudioContextRef (refs c).
Proof.
  unfold handleLiveMessage_resume, on_interrupted, add.
  cbn -[has].
  destruct (has (created c) (sourcesRef (refs c))) eqn:Hh,
           (message_interrupted k);
    cbn -[has]; rewrite ?Hh, <- ?app_assoc; cbn -[has]; auto 6.
Qed.

(** C9.  A message with both an audio chunk and the interrupted flag:
    the chunk is scheduled first and the interruption is processed after
    it, so the handler ends with the set empty and the cursor at 0, the
    node just started being stopped with the others. *)
Theorem C9_interruption_after_scheduling
    (clock : Q) (m : LiveServerMessage) (audio : InlineData) (c : Component) :
  inlineData m = Some audio -> truthy (data audio) = true ->
  interrupted m = true ->
  let c' := handleLiveMessage_whole clock m c in
  let k := {| audioBuffer_duration := duration audio;
              message_interrupted := true |} in
  sourcesRef (refs c') = [] /\
  nextStartTimeRef (refs c') = 0 /\
  (outputAudioContextRef (refs c) = true ->
   trace c'
   = trace c
     ++ source_start (created c) (Math_max (nextStartTimeRef (refs c)) clock)
        :: map source_stop (add (created c) (sourcesRef (refs c)))) /\
  (outputAudioContextRef (refs c) = true ->
   exists c1,
     handleLiveMessage clock m c = awaiting k c1 /\
     forall c2,
       sourcesRef (refs (handleLiveMessage_resume k c2)) = [] /\
       nextStartTimeRef (refs (handleLiveMessage_resume k c2)) = 0).
Proof.
  intros Ha Ht Hi c' k. subst c'.
  unfold handleLiveMessage_whole. rewrite handleLiveMessage_unfold. cbv zeta.
  destruct (playback_fields _ _ (playback_transcript_part m c))
    as (E1 & E2 & E3 & E4 & E5 & E6).
  rewrite Ha, Ht, Hi, E1. cbn [andb]. fold k.
  set (c1 := transcript_part m c) in *.
  destruct (outputAudioContextRef (refs c)) eqn:Hc.
  - match goal with
    | |- context [ handleLiveMessage_resume k ?x ] =>
        destruct (resume_effect k x) as (R1 & R2 & R3 & _)
    end.
    cbv zeta in R1, R2, R3. cbn [message_interrupted k] in R1, R2, R3.
    split; [exact R2|]. split; [exact R3|]. split.
    + intros _. rewrite R1. cbn. rewrite E2, E3, E4, E5. reflexivity.
    + intros _. eexists. split; [reflexivity|].
      intros c2. destruct (resume_effect k c2) as (_ & R2' & R3' & _).
      split; [exact R2'|exact R3'].
  - split; [reflexivity|]. split; [reflexivity|].
    split; discriminate.
Qed.

Lemma C1_witness :
  trace (handle_all three_chunks (start_granted filled_in))
  = trace (start_granted filled_in) ++ scheduled 0%nat [1; 3; 10].
Proof.
  assert (H : Forall (fun tm => interrupted (snd tm) = false) three_chunks)
    by (repeat constructor).
  exact (proj1 (C1_gapless_scheduling three_chunks (start_granted filled_in)
                  eq_refl H)).
Defined.


Lemma C9_witness :
  sourcesRef (refs (handleLiveMessage_whole 2 (audio_chunk 1 true)
                      (handle_all three_chunks (start_granted filled_in)))) = [] /\
  nextStartTimeRef (refs (handleLiveMessage_whole 2 (audio_chunk 1 true)
                            (handle_all three_chunks (start_granted filled_in))))
  = 0.
Proof.
  destruct (C9_interruption_after_scheduling 2 (audio_chunk 1 true)
              {| data := str "AAAA"; duration := 1 |}
              (handle_all three_chunks (start_granted filled_in))
              eq_refl eq_refl eq_refl) as (H1 & H2 & _).
  split; [exact H1|exact H2].
Defined.

End Playback.

(* ===================================================================== *)
(** * The set of active sources *)
(* ===================================================================== *)

Module ActiveSources.
Import Interview InterviewFacts Playback.
Local Open Scope nat_scope.







(** ** Counting in the history *)






(** ** The invariant *)

















End ActiveSources.

(* ===================================================================== *)
(** * Transcript assembly *)
(* ===================================================================== *)

Module Transcript.
Import Interview InterviewFacts.

Lemma updateQueue_dispatch_pending a c :
  updateQueue c <> [] -> updateQueue (dispatch a c) = updateQueue c ++ [a].
Proof.
  unfold dispatch, React.dispatch, with_fiber; cbn.
  destruct (updateQueue c); [congruence|reflexivity].
Qed.

Lemma updateQueue_dispatch_fn f c :
  updateQueue (dispatch (setTranscripts_fn f) c)
  = match updateQueue c with
    | [] => [setTranscripts (f (refs c) (transcripts (hooks c)))]
    | q => q ++ [setTranscripts_fn f]
    end.
Proof.
  unfold dispatch, React.dispatch, with_fiber; cbn.
  destruct (updateQueue c); reflexivity.
Qed.

(** Whatever is pending, a turn that completes with both accumulators
    non-blank ends the transcript with a user entry and a model entry
    whose text is empty. *)
Lemma turn_complete_model_entry_empty (clock : Q) (c : Component) :
  trim (currentInputTranscriptionRef (refs c)) <> [] ->
  trim (currentOutputTranscriptionRef (refs c)) <> [] ->
  exists prev u,
    transcripts (hooks (render (handleLiveMessage_whole clock turn_complete c)))
    = prev ++ [{| speaker := user; text := u |};
               {| speaker := model; text := [] |}].
Proof.
  intros Hi Ho.
  unfold handleLiveMessage_whole, handleLiveMessage, on_inputTranscription,
    on_outputTranscription, on_turnComplete, on_interrupted.
  cbn [turn_complete inputTranscription outputTranscription turnComplete
         inlineData interrupted].
  destruct (trim (currentInputTranscriptionRef (refs c))) as [|a s] eqn:Ei;
    [congruence|]. cbn [truthy].
  rewrite (proj1 (proj2 (dispatch_frame _ c))).
  destruct (trim (currentOutputTranscriptionRef (refs c))) as [|b t] eqn:Eo;
    [congruence|]. cbn [truthy].
  rewrite hooks_render. unfold committed.
  set (c1 := dispatch (setTranscripts_fn append_user_entry) c).
  set (c2 := dispatch (setTranscripts_fn append_model_entry) c1).
  assert (Q1 : updateQueue c1 <> []).
  { unfold c1. rewrite updateQueue_dispatch_fn.
    destruct (updateQueue c); [discriminate|].
    intros E. apply app_eq_nil in E as [_ E]. discriminate. }
  assert (Q2 : updateQueue c2 = updateQueue c1 ++ [setTranscripts_fn append_model_entry])
    by (apply updateQueue_dispatch_pending, Q1).
  assert (Q3 : forall g g', updateQueue (dispatch (setIsTalking false)
                                          (update_refs g (update_refs g' c2)))
                            = updateQueue c2 ++ [setIsTalking false]).
  { intros g g'. apply (updateQueue_dispatch_pending (setIsTalking false)
                          (update_refs g (update_refs g' c2))).
    cbn [updateQueue update_refs with_refs]. rewrite Q2.
    intros E. apply app_eq_nil in E as [_ E]. discriminate. }
  rewrite Q3, Q2, !fold_left_app.
  rewrite !(proj1 (dispatch_frame _ _)).
  rewrite !(proj1 (proj2 (dispatch_frame _ _))).
  cbn [fold_left reduce transcripts update_refs with_refs refs hooks
         append_model_entry currentOutputTranscriptionRef
         set_currentOutputTranscriptionRef set_currentInputTranscriptionRef].
  replace (refs c2) with (refs c)
    by (unfold c2, c1; rewrite !(proj1 (proj2 (dispatch_frame _ _))); reflexivity).
  replace (hooks c2) with (hooks c)
    by (unfold c2, c1; rewrite !(proj1 (dispatch_frame _ _)); reflexivity).
  set (rr := set_currentOutputTranscriptionRef []
               (set_currentInputTranscriptionRef [] (refs c))).
  assert (U : exists prev u,
             transcripts (fold_left (reduce rr) (updateQueue c1) (hooks c))
             = prev ++ [{| speaker := user; text := u |}]).
  { unfold c1. rewrite updateQueue_dispatch_fn.
    destruct (updateQueue c) as [|a0 q].
    - cbn. eexists. eexists. reflexivity.
    - rewrite fold_left_app. cbn. eexists. eexists. reflexivity. }
  destruct U as (prev & u & ->).
  exists prev, u. unfold append_model_entry. rewrite <- app_assoc. reflexivity.
Qed.

(** What does hold of a completed turn: both accumulators are emptied
    and the indicator is cleared; blank accumulators queue no entry. *)
Lemma turn_complete_clears (message : LiveServerMessage) (c : Component) :
  turnComplete message = true ->
  let c' := on_turnComplete message c in
  currentInputTranscriptionRef (refs c') = [] /\
  currentOutputTranscriptionRef (refs c') = [] /\
  isTalking (hooks (render c')) = false /\
  (trim (currentInputTranscriptionRef (refs c)) = [] ->
   trim (currentOutputTranscriptionRef (refs c)) = [] ->
   updateQueue c' = updateQueue c
   \/ updateQueue c' = updateQueue c ++ [setIsTalking false]).
Proof.
  intros Ht c'. subst c'. unfold on_turnComplete. rewrite Ht.
  split; [|split; [|split]].
  - rewrite (proj1 (proj2 (dispatch_frame _ _))). reflexivity.
  - rewrite (proj1 (proj2 (dispatch_frame _ _))). reflexivity.
  - rewrite hooks_render, committed_dispatch_plain by exact I. reflexivity.
  - intros E1 E2. rewrite E1. cbn [truthy]. rewrite E2. cbn [truthy].
    unfold dispatch, React.dispatch, with_fiber, update_refs, with_refs; cbn.
    destruct (updateQueue c); [destruct (isTalking (hooks c))|]; cbn; auto.
Qed.


(** The specification's example, two spaces and "Hello.": with nothing
    pending when the turn completes the single update is computed at
    the call and the entry is right. *)
Example blank_and_hello_when_idle :
  transcripts (hooks (component blank_then_hello))
  = [{| speaker := model; text := str "Hello." |}].
Proof. vm_compute. reflexivity. Qed.

(** The same accumulators, the last fragment arriving in the message
    that completes the turn: [setIsTalking(true)] is pending, the update
    is queued as a function and the entry comes out empty. *)
Example blank_and_hello_when_pending :
  transcripts (hooks (component blank_then_hello_in_one_message))
  = [{| speaker := model; text := [] |}].
Proof. vm_compute. reflexivity. Qed.

End Transcript.

(* ===================================================================== *)
(** * The chat panel *)
(* ===================================================================== *)

Module ChatFacts.
Import Chatbot.
Local Open Scope nat_scope.

Lemma map_last_snoc f l x : map_last f (l ++ [x]) = l ++ [f x].
Proof.
  induction l as [|y l IH]; [reflexivity|].
  cbn [app map_last]. rewrite IH.
  destruct (l ++ [x]) eqn:E; [|reflexivity].
  apply app_eq_nil in E as [_ E]. discriminate.
Qed.

Lemma map_last_two f (base : list ChatMessage) u b :
  map_last f (base ++ [u; b]) = base ++ [u; f b].
Proof.
  change (base ++ [u; b]) with (base ++ [u] ++ [b]).
  rewrite app_assoc, map_last_snoc, <- app_assoc. reflexivity.
Qed.

Lemma locals_of_store_set id l s :
  id < List.length s -> locals_of id (store_set id l s) = l.
Proof.
  unfold locals_of. revert id.
  induction s as [|x s IH]; intros [|id] H; cbn in *; try lia; auto.
  apply IH. lia.
Qed.

Lemma length_store_set id l s : List.length (store_set id l s) = List.length s.
Proof.
  revert id. induction s as [|x s IH]; intros [|id]; cbn; auto.
Qed.

Lemma locals_of_new (s : Store) l : locals_of (List.length s) (s ++ [l]) = l.
Proof.
  unfold locals_of. rewrite app_nth2, Nat.sub_diag by lia. reflexivity.
Qed.

(** ** The invariant along the stream *)

Lemma streaming_render base u id c :
  streaming base u id c -> streaming base u id (render c).
Proof.
  intros (Hid & g & Hg & Hb & Hs). split; [exact Hid|].
  exists (fun _ => g (store c)). split; [|split].
  - intros s. unfold pending_messages. cbn. apply (Hg (store c)).
  - intros _. apply Hb.
  - exact Hs.
Qed.

Lemma streaming_on_chunk base u id chunk c :
  streaming base u id c -> streaming base u id (on_chunk id chunk c).
Proof.
  intros (Hid & g & Hg & Hb & Hs).
  unfold on_chunk.
  set (l' := {| fullText := _; allSources := _ |}).
  set (c1 := with_store (store_set id l' (store c)) c).
  assert (L : locals_of id (store c1) = l')
    by (apply locals_of_store_set, Hid).
  assert (Hlen : id < List.length (store (dispatch (setMessages_fn (show_progress id)) c1))).
  { unfold dispatch, React.dispatch, with_fiber. cbn [store c1 with_store].
    rewrite length_store_set. exact Hid. }
  split; [exact Hlen|].
  unfold pending_messages, dispatch, React.dispatch, with_fiber in *.
  cbn [hooks updateQueue store fst snd c1 with_store unchanged] in *.
  destruct (updateQueue c) as [|a q] eqn:Q.
  - cbn [fold_left] in Hg.
    exists (fun _ => bot_of l'). split; [|split].
    + intros s. cbn. unfold show_progress. rewrite (Hg s), map_last_two.
      rewrite L. unfold bot_of. rewrite (Hb s). reflexivity.
    + reflexivity.
    + cbn. rewrite L. reflexivity.
  - exists (fun s => bot_of (locals_of id s)). split; [|split].
    + intros s. cbn [fst snd hooks updateQueue].
      rewrite fold_left_app. specialize (Hg s).
      set (X := fold_left (reduce s) (a :: q) (hooks c)) in *.
      cbn [fold_left reduce messages].
      rewrite Hg. unfold show_progress. rewrite map_last_two.
      unfold bot_of. rewrite (Hb s). reflexivity.
    + reflexivity.
    + reflexivity.
Qed.

Lemma streaming_run base u id es : forall c,
  streaming base u id c -> streaming base u id (run id es c).
Proof.
  induction es as [|[chunk|] es IH]; intros c H; [exact H| |];
    apply IH; [apply streaming_on_chunk|apply streaming_render]; exact H.
Qed.

Lemma store_dispatch a c : store (dispatch a c) = store c.
Proof. reflexivity. Qed.

Lemma fullText_run id es : forall c,
  id < List.length (store c) ->
  id < List.length (store (run id es c)) /\
  fullText (locals_of id (store (run id es c)))
  = fold_left concat_text (chunk_texts es) (fullText (locals_of id (store c))).
Proof.
  induction es as [|[chunk|] es IH]; intros c H.
  - auto.
  - cbn [run fold_left step chunk_texts flat_map app].
    fold (run id es (on_chunk id chunk c)). fold (chunk_texts es).
    assert (H' : id < List.length (store (on_chunk id chunk c)))
      by (unfold on_chunk; rewrite store_dispatch; cbn; rewrite length_store_set;
          exact H).
    destruct (IH _ H') as [I1 I2]. split; [exact I1|].
    rewrite I2. f_equal. unfold on_chunk. rewrite store_dispatch. cbn [store with_store].
    rewrite locals_of_store_set by exact H. reflexivity.
  - cbn [run fold_left step chunk_texts flat_map app].
    fold (run id es (render c)). fold (chunk_texts es).
    apply (IH (render c)). exact H.
Qed.

Lemma send_guard_fails (c : Component) :
  negb (truthy (trim (input (hooks c)))) || negb (chat (hooks c)) = true
  <-> trim (input (hooks c)) = [] \/ chat (hooks c) = false.
Proof.
  rewrite orb_true_iff, !negb_true_iff.
  destruct (trim (input (hooks c))); cbn; intuition congruence.
Qed.

(** The state [sendMessage] leaves at its [await]. *)
Lemma sendMessage_starts (c : Component) :
  updateQueue c = [] ->
  trim (input (hooks c)) <> [] -> chat (hooks c) = true ->
  exists c',
    sendMessage c = awaiting (List.length (store c)) c' /\
    trace c'
    = trace c ++ [streamChatResponse (input (hooks c)) (useGrounding (hooks c))] /\
    streaming (messages (hooks c))
      {| sender := user; text := input (hooks c); sources := None |}
      (List.length (store c)) c' /\
    locals_of (List.length (store c)) (store c')
    = {| fullText := []; allSources := [] |}.
Proof.
  intros Q Hi Hc.
  assert (G : negb (truthy (trim (input (hooks c)))) || negb (chat (hooks c)) = false).
  { destruct (negb (truthy (trim (input (hooks c)))) || negb (chat (hooks c))) eqn:E;
      [|reflexivity].
    apply send_guard_fails in E. destruct E; congruence. }
  unfold sendMessage. rewrite G.
  eexists. split; [reflexivity|]. split.
  - unfold dispatch, React.dispatch, with_fiber; cbn. rewrite Q. cbn. reflexivity.
  - assert (L : locals_of (List.length (store c))
                  (store c ++ [{| fullText := []; allSources := [] |}])
                = {| fullText := []; allSources := [] |})
      by apply locals_of_new.
    split; [split|exact L].
    + cbn. rewrite length_app. cbn. lia.
    + exists (fun _ => {| sender := bot; text := []; sources := Some [] |}).
      split; [|split].
      * intros s. unfold pending_messages, dispatch, React.dispatch, with_fiber.
        cbn. rewrite Q. cbn. rewrite <- app_assoc. reflexivity.
      * reflexivity.
      * cbn [store call with_store]. rewrite !store_dispatch.
        rewrite L. reflexivity.
Qed.

(** C10.  With blank input, or before a chat session exists,
    [sendMessage] changes nothing and issues no request.  Otherwise it
    issues the request and the list gains exactly two messages, the user
    message and then a bot message that is empty at first; the chunks
    of the stream rewrite that bot message and leave every earlier
    message as it was. *)
Theorem C10_sendMessage (c : Component) :
  (forallb isWhiteSpace (input (hooks c)) = true \/ chat (hooks c) = false ->
   sendMessage c = returned c)
  /\
  (updateQueue c = [] ->
   forallb isWhiteSpace (input (hooks c)) = false -> chat (hooks c) = true ->
   let id := List.length (store c) in
   let userMessage :=
     {| sender := user; text := input (hooks c); sources := None |} in
   exists c',
     sendMessage c = awaiting id c' /\
     trace c'
     = trace c ++ [streamChatResponse (input (hooks c)) (useGrounding (hooks c))] /\
     messages (hooks (render c'))
     = messages (hooks c)
       ++ [userMessage; {| sender := bot; text := []; sources := Some [] |}] /\
     forall es,
       let c'' := render (run id es c') in
       let l := locals_of id (store c'') in
       messages (hooks c'') = messages (hooks c) ++ [userMessage; bot_of l] /\
       fullText l = fold_left concat_text (chunk_texts es) []).
Proof.
  split.
  - intros G. rewrite <- trim_nil_iff in G.
    apply send_guard_fails in G. unfold sendMessage. rewrite G. reflexivity.
  - intros Q Hw Hc id userMessage.
    assert (Hi : trim (input (hooks c)) <> [])
      by (rewrite trim_nil_iff; congruence).
    destruct (sendMessage_starts c Q Hi Hc) as (c' & E & T & S & L0).
    fold id in E, S. fold userMessage in S.
    exists c'. split; [exact E|]. split; [exact T|].
    assert (R : forall es,
              let c'' := render (run id es c') in
              let l := locals_of id (store c'') in
              messages (hooks c'') = messages (hooks c) ++ [userMessage; bot_of l] /\
              fullText l
              = fold_left concat_text (chunk_texts es)
                  (fullText (locals_of id (store c')))).
    { intros es c'' l. subst c'' l.
      destruct (streaming_run (messages (hooks c)) userMessage id es c' S)
        as (_ & g & Hg & _ & Hs).
      split.
      - specialize (Hg (store (run id es c'))).
        unfold pending_messages in Hg.
        change (hooks (render (run id es c')))
          with (fold_left (reduce (store (run id es c')))
                  (updateQueue (run id es c')) (hooks (run id es c'))).
        change (store (render (run id es c'))) with (store (run id es c')).
        rewrite Hg, Hs. reflexivity.
      - cbn [render with_fiber store]. apply fullText_run. apply S. }
    fold id in L0.
    split.
    + destruct (R []) as [R1 _]. cbn [run fold_left] in R1.
      rewrite R1. cbn [render with_fiber store]. rewrite L0. reflexivity.
    + intros es. destruct (R es) as [R1 R2]. rewrite L0 in R2. split; assumption.
Qed.

Lemma C10_witness :
  exists c',
    sendMessage typed_hi = awaiting 0 c' /\
    messages (hooks (render (run 0 [chunk_received (text_chunk "Hel"); rendered;
                                    chunk_received (text_chunk "lo")] c')))
    = [greeting;
       {| sender := user; text := str "Hi"; sources := None |};
       {| sender := bot; text := str "Hello"; sources := Some [] |}].
Proof.
  destruct (proj2 (C10_sendMessage typed_hi) eq_refl eq_refl eq_refl)
    as (c' & E & _ & _ & R).
  exists c'. split; [exact E|].
  destruct (R [chunk_received (text_chunk "Hel"); rendered;
               chunk_received (text_chunk "lo")]) as [R1 R2].
  cbv zeta in R1, R2.
  change (List.length (store typed_hi)) with 0 in R1, R2.
  rewrite R1. unfold bot_of. rewrite R2.
  vm_compute in E. injection E as <-. reflexivity.
Defined.

End ChatFacts.

(* ===================================================================== *)
(** * The interview component: teardown, restart and late events *)
(* ===================================================================== *)

Module InterviewExtra.
Import Interview InterviewFacts Playback.

(** A setter call with a value changes only its own cell. *)
Lemma committed_dispatch_same (a : Action) (c : Component) :
  (forall v, a <> setInterviewState v) ->
  plain a ->
  interviewState (committed (dispatch a c)) = interviewState (committed c).
Proof.
  intros N P. rewrite committed_dispatch_plain by exact P.
  destruct a; cbn; try reflexivity. exfalso. apply (N v). reflexivity.
Qed.

(** ** Teardown *)

(** [stopAudioProcessing] releases whatever is held: the processor is
    disconnected and each context closed if it exists, every node of
    the set is stopped, and all of them are let go. *)
Lemma teardown_spec (c : Component) :
  released (stopAudioProcessing c) /\
  trace (stopAudioProcessing c) = trace c ++ teardown_calls (refs c) /\
  nextStartTimeRef (refs (stopAudioProcessing c)) = nextStartTimeRef (refs c) /\
  hooks (stopAudioProcessing c) = hooks c /\
  updateQueue (stopAudioProcessing c) = updateQueue c.
Proof.
  destruct c as [h q r n t hist]. destruct r as [sp ac oc pr ci co ns ss].
  unfold released, stopAudioProcessing, stop_sources, teardown_calls.
  destruct pr, ac, oc; cbn; rewrite <- ?app_assoc; cbn; auto 10.
Qed.

Lemma stopAudioProcessing_released (c : Component) :
  released c -> stopAudioProcessing c = c.
Proof.
  destruct c as [h q r n t hist]. destruct r as [sp ac oc pr ci co ns ss].
  unfold released. cbn. intros (-> & -> & -> & ->).
  unfold stopAudioProcessing, stop_sources. cbn.
  unfold update_refs, with_refs, record, call. cbn.
  rewrite (app_nil_r t), (app_nil_r hist). reflexivity.
Qed.

Lemma ended_released (s : AudioBufferSourceNode) (c : Component) :
  released c -> ended s c = c.
Proof.
  intros (_ & _ & _ & E). unfold ended. rewrite E. reflexivity.
Qed.

(** Teardown is idempotent, and the ended events that the stopped nodes
    fire afterwards change nothing. *)
Theorem stopAudioProcessing_idempotent (c : Component) (s : AudioBufferSourceNode) :
  stopAudioProcessing (stopAudioProcessing c) = stopAudioProcessing c /\
  ended s (stopAudioProcessing c) = stopAudioProcessing c.
Proof.
  pose proof (proj1 (teardown_spec c)) as R. split.
  - apply stopAudioProcessing_released, R.
  - apply ended_released, R.
Qed.

(** ** [endInterview] *)

Lemma set_sessionPromiseRef_false (c : Component) :
  sessionPromiseRef (refs c) = false ->
  update_refs (set_sessionPromiseRef false) c = c.
Proof.
  destruct c as [h q r n t hist]. destruct r as [sp ac oc pr ci co ns ss].
  cbn. intros ->. reflexivity.
Qed.

Lemma released_ext (c c' : Component) :
  refs c' = refs c -> released c -> released c'.
Proof. unfold released. intros ->. auto. Qed.

Lemma reduce_twice (r r' : Refs) (h : Hooks) (a : Action) :
  plain a -> reduce r' (reduce r h a) a = reduce r h a.
Proof. destruct a; cbn; tauto || reflexivity. Qed.

(** The core of [endInterview]: what precedes the two state setters. *)
Lemma endInterview_unfold (c : Component) :
  endInterview c
  = dispatch (setIsTalking false)
      (dispatch (setInterviewState finished)
         (stopAudioProcessing
            (update_refs (set_sessionPromiseRef false)
               (if sessionPromiseRef (refs c) then call [session_close] c else c)))).
Proof. reflexivity. Qed.

(** What [endInterview] does, cell by cell. *)
Lemma endInterview_spec (c : Component) :
  let c' := endInterview c in
  trace c'
  = trace c
    ++ (if sessionPromiseRef (refs c) then [session_close] else [])
    ++ teardown_calls (refs c) /\
  sessionPromiseRef (refs c') = false /\ released c' /\
  interviewState (hooks (render c')) = finished /\
  isTalking (hooks (render c')) = false.
Proof.
  intros c'. subst c'. rewrite endInterview_unfold.
  set (c0 := update_refs _ _).
  destruct (teardown_spec c0) as (R & T & _).
  split; [|split; [|split; [|split]]].
  - rewrite !(proj1 (proj2 (proj2 (proj2 (dispatch_frame _ _))))), T.
    unfold c0. destruct (sessionPromiseRef (refs c)); cbn [trace call update_refs
      with_refs refs]; rewrite <- ?app_assoc; reflexivity.
  - rewrite !(proj1 (proj2 (dispatch_frame _ _))).
    destruct c as [h q r n t hist]. destruct r as [sp ac oc pr ci co ns ss].
    unfold c0. destruct sp, pr, ac, oc; reflexivity.
  - apply (released_ext (stopAudioProcessing c0)); [|exact R].
    rewrite !(proj1 (proj2 (dispatch_frame _ _))). reflexivity.
  - rewrite hooks_render, committed_dispatch_same by (discriminate || exact I).
    rewrite committed_dispatch_plain by exact I. reflexivity.
  - rewrite hooks_render, committed_dispatch_plain by exact I. reflexivity.
Qed.


(** A second [endInterview] (the unmount cleanup after the button, or
    the reverse) calls nothing and changes neither the refs nor what the
    next render shows. *)
Theorem endInterview_twice (c : Component) :
  trace (endInterview (endInterview c)) = trace (endInterview c) /\
  refs (endInterview (endInterview c)) = refs (endInterview c) /\
  hooks (render (endInterview (endInterview c)))
  = hooks (render (endInterview c)).
Proof.
  destruct (endInterview_spec c) as (_ & S & R & _).
  cbv zeta in S, R.
  assert (E : endInterview (endInterview c)
              = dispatch (setIsTalking false)
                  (dispatch (setInterviewState finished) (endInterview c))).
  { rewrite (endInterview_unfold (endInterview c)), S.
    rewrite set_sessionPromiseRef_false by exact S.
    rewrite stopAudioProcessing_released by exact R. reflexivity. }
  rewrite E. split; [|split].
  - rewrite !(proj1 (proj2 (proj2 (proj2 (dispatch_frame _ _))))). reflexivity.
  - rewrite !(proj1 (proj2 (dispatch_frame _ _))). reflexivity.
  - rewrite !hooks_render, !committed_dispatch_plain by exact I.
    assert (C : exists r1 r2 h,
               committed (endInterview c)
               = reduce r2 (reduce r1 h (setInterviewState finished))
                   (setIsTalking false)).
    { rewrite endInterview_unfold, !committed_dispatch_plain by exact I.
      eexists. eexists. eexists. reflexivity. }
    destruct C as (r1 & r2 & h & ->). destruct h. reflexivity.
Qed.

(** ** Messages that arrive when nothing can play *)



(** ** The accumulators *)






(** ** Starting a session *)

Lemma updateQueue_dispatch_setTranscripts v c :
  updateQueue (dispatch (setTranscripts v) c) = updateQueue c ++ [setTranscripts v].
Proof.
  unfold dispatch, React.dispatch, with_fiber; cbn.
  destruct (updateQueue c); reflexivity.
Qed.

Lemma startInterview_queue (c c' : Component) k :
  startInterview c = awaiting k c' ->
  exists q,
    updateQueue c' = q ++ [setTranscripts []; setInterviewState in_progress].
Proof.
  unfold startInterview.
  destruct (negb (truthy (trim (jobRole (hooks c))))
            || negb (truthy (trim (jobDescription (hooks c))))); [discriminate|].
  set (c1 := dispatch (setError None) c).
  set (c2 := dispatch (setTranscripts []) c1).
  set (c3 := dispatch (setInterviewState in_progress) c2).
  assert (Q : updateQueue c3
              = updateQueue c1 ++ [setTranscripts []; setInterviewState in_progress]).
  { unfold c3, c2. rewrite Transcript.updateQueue_dispatch_pending.
    - rewrite updateQueue_dispatch_setTranscripts, <- app_assoc. reflexivity.
    - rewrite updateQueue_dispatch_setTranscripts.
      intros E. apply app_eq_nil in E as [_ E]. discriminate. }
  clearbody c3. clearbody c1.
  intros E. injection E as _ <-.
  exists (updateQueue c1).
  unfold clear_sources.
  cbn [updateQueue call record update_refs with_refs]. exact Q.
Qed.


Lemma startInterview_refs (c c' : Component) k :
  startInterview c = awaiting k c' ->
  refs c'
  = set_sourcesRef []
      (set_nextStartTimeRef 0
         (set_currentOutputTranscriptionRef []
            (set_currentInputTranscriptionRef [] (refs c)))) /\
  k = (jobRole (hooks c), jobDescription (hooks c)).
Proof.
  unfold startInterview.
  destruct (negb (truthy (trim (jobRole (hooks c))))
            || negb (truthy (trim (jobDescription (hooks c))))); [discriminate|].
  set (c3 := dispatch (setInterviewState in_progress)
               (dispatch (setTranscripts []) (dispatch (setError None) c))).
  assert (H3 : hooks c3 = hooks c /\ refs c3 = refs c).
  { unfold c3.
    rewrite !(proj1 (proj2 (dispatch_frame _ _))), !(proj1 (dispatch_frame _ _)).
    split; reflexivity. }
  clearbody c3. destruct H3 as [Hh Hr].
  intros E. injection E as <- <-.
  unfold clear_sources.
  cbn [refs hooks call record update_refs with_refs].
  rewrite Hh, Hr. split; reflexivity.
Qed.

(** A new session starts from a clean slate: both accumulators empty,
    the cursor at 0, the set empty, and the next render shows an empty
    transcript and no error, whatever the previous session left or had
    pending.  Nothing is stopped or closed on the way: the only call is
    the microphone request, and the device refs are as they were. *)
Theorem startInterview_resets (c c' : Component) (k : jsstring * jsstring) :
  startInterview c = awaiting k c' ->
  currentInputTranscriptionRef (refs c') = [] /\
  currentOutputTranscriptionRef (refs c') = [] /\
  nextStartTimeRef (refs c') = 0 /\
  sourcesRef (refs c') = [] /\
  transcripts (hooks (render c')) = [] /\
  errorMessage (hooks (render c')) = None /\
  trace c' = trace c ++ [getUserMedia] /\
  outputAudioContextRef (refs c') = outputAudioContextRef (refs c) /\
  audioContextRef (refs c') = audioContextRef (refs c) /\
  processorRef (refs c') = processorRef (refs c).
Proof.
  intros E.
  destruct (startInterview_refs c c' k E) as [R _].
  destruct (startInterview_queue c c' k E) as [q Q].
  destruct (Controller.startInterview_commits_in_progress c c' k E) as (_ & T & _).
  rewrite R. cbn [currentInputTranscriptionRef currentOutputTranscriptionRef
    nextStartTimeRef sourcesRef outputAudioContextRef audioContextRef processorRef
    set_sourcesRef set_nextStartTimeRef set_currentOutputTranscriptionRef
    set_currentInputTranscriptionRef].
  repeat (split; [reflexivity|]).
  split; [|split; [|split; [exact T|repeat split]]].
  - rewrite hooks_render. unfold committed. rewrite Q, fold_left_app. reflexivity.
  - rewrite hooks_render.
    unfold startInterview in E.
    destruct (negb (truthy (trim (jobRole (hooks c))))
              || negb (truthy (trim (jobDescription (hooks c))))); [discriminate|].
    injection E as _ <-. rewrite committed_call. unfold clear_sources.
    rewrite (proj1 (proj2 (proj2 (proj2 (committed_update_refs _ _))))),
      committed_record.
    rewrite !(proj1 (proj2 (proj2 (proj2 (committed_update_refs _ _))))).
    rewrite !committed_dispatch_plain by exact I. reflexivity.
Qed.

Lemma startInterview_resets_witness :
  match startInterview (render (endInterview playing)) with
  | awaiting _ c' =>
      nextStartTimeRef (refs c') = 0 /\ transcripts (hooks (render c')) = []
  | returned _ => False
  end.
Proof.
  destruct (startInterview (render (endInterview playing))) as [c'|k c'] eqn:E.
  - vm_compute in E. discriminate E.
  - destruct (startInterview_resets _ c' k E) as (_ & _ & H3 & _ & H5 & _).
    split; [exact H3|exact H5].
Defined.

(** With the microphone granted, the rest of [startInterview] makes one
    call, the connect, whose instruction is built from the role and the
    description as they stood when the button was pressed (untrimmed);
    it stores the session and sets no state. *)
Theorem startInterview_connects (c c' : Component) (k : jsstring * jsstring) :
  startInterview c = awaiting k c' ->
  forall c1,
    let c2 := startInterview_resume k stream c1 in
    trace c2
    = trace c1
      ++ [connect (systemInstruction (jobRole (hooks c)) (jobDescription (hooks c)))] /\
    sessionPromiseRef (refs c2) = true /\
    hooks c2 = hooks c1 /\ updateQueue c2 = updateQueue c1.
Proof.
  intros E c1 c2. subst c2.
  destruct (startInterview_refs c c' k E) as [_ ->].
  repeat split.
Qed.

Lemma startInterview_connects_witness :
  match startInterview filled_in with
  | awaiting k c' =>
      trace (startInterview_resume k stream (render c'))
      = trace (render c')
        ++ [connect (systemInstruction (str "Engineer") (str "Go services"))]
  | returned _ => False
  end.
Proof.
  destruct (startInterview filled_in) as [c'|k c'] eqn:E.
  - vm_compute in E. discriminate E.
  - apply (startInterview_connects filled_in c' k E (render c')).
Defined.

(** The start button is disabled exactly when [startInterview] would
    refuse: pressing an enabled button always gets to the microphone
    request, never to the validation message. *)
Theorem startButton_guards_startInterview (c : Component) :
  startButton_disabled (hooks c) = false
  <-> exists k c', startInterview c = awaiting k c'.
Proof.
  unfold startButton_disabled, startInterview.
  destruct (negb (truthy (trim (jobRole (hooks c))))
            || negb (truthy (trim (jobDescription (hooks c))))); split.
  - discriminate.
  - intros (k & c' & E). discriminate E.
  - intros _. eexists. eexists. reflexivity.
  - reflexivity.
Qed.

(** ** Errors *)

Lemma fold_plain (r r' : Refs) (q : list Action) : forall h,
  Forall plain q -> fold_left (reduce r) q h = fold_left (reduce r') q h.
Proof.
  induction q as [|a q IH]; intros h H; [reflexivity|].
  inversion_clear H as [|? ? Pa Pq]. cbn.
  replace (reduce r h a) with (reduce r' h a) by (destruct a; cbn in *; tauto || reflexivity).
  apply IH, Pq.
Qed.

Lemma dispatch_plain_idle (a : Action) (c : Component) :
  plain a -> Forall plain (updateQueue c) -> Forall plain (updateQueue (dispatch a c)).
Proof.
  intros P F. unfold dispatch, React.dispatch, with_fiber; cbn.
  destruct (updateQueue c) as [|a0 q] eqn:Q.
  - destruct (unchanged (hooks c) a); cbn; rewrite ?Q; [constructor|].
    destruct a; cbn in *; try tauto; repeat constructor.
  - cbn [fst snd updateQueue with_updateQueue with_hooks].
    change (Forall plain ((a0 :: q) ++ [a])).
    apply Forall_app. split; [exact F|]. repeat constructor. exact P.
Qed.

(** A session error, met with nothing pending: the next render is in the
    error state with the session message, it shows the finished view
    with the transcript as it stood, the devices are released, and the
    session itself is neither closed nor forgotten. *)
Theorem onerror_keeps_transcript (c : Component) :
  updateQueue c = [] ->
  let c' := render (onerror c) in
  interviewState (hooks c') = error /\
  errorMessage (hooks c') = Some (str "An error occurred during the interview.") /\
  transcripts (hooks c') = transcripts (hooks c) /\
  view (hooks c') = renderFinished (transcripts (hooks c)) /\
  released c' /\
  trace c' = trace c ++ teardown_calls (refs c) /\
  sessionPromiseRef (refs c') = sessionPromiseRef (refs c).
Proof.
  intros Q c'. subst c'. unfold onerror.
  set (a1 := setError _). set (a2 := setInterviewState error).
  set (y := dispatch a2 (dispatch a1 c)).
  destruct (teardown_spec y) as (R & T & _ & H & U).
  assert (Fy : Forall plain (updateQueue y)).
  { unfold y. repeat apply dispatch_plain_idle; try exact I. rewrite Q. constructor. }
  assert (C : hooks (render (stopAudioProcessing y)) = committed y).
  { rewrite hooks_render. unfold committed. rewrite H, U.
    apply fold_plain, Fy. }
  assert (Cy : committed y = reduce (refs c) (reduce (refs c) (hooks c) a1) a2).
  { unfold y. rewrite !committed_dispatch_plain by exact I.
    rewrite (proj1 (proj2 (dispatch_frame _ _))).
    unfold committed. rewrite Q. reflexivity. }
  assert (Ry : refs y = refs c)
    by (unfold y; rewrite !(proj1 (proj2 (dispatch_frame _ _))); reflexivity).
  assert (Ty : trace y = trace c)
    by (unfold y; rewrite !(proj1 (proj2 (proj2 (proj2 (dispatch_frame _ _)))));
        reflexivity).
  rewrite C, Cy.
  split; [reflexivity|]. split; [reflexivity|]. split; [reflexivity|].
  split; [reflexivity|]. split; [|split].
  - apply (released_ext (stopAudioProcessing y)); [reflexivity|exact R].
  - rewrite (proj1 (proj2 (proj2 (render_frame _)))), T, Ty, Ry. reflexivity.
  - rewrite (proj1 (render_frame _)).
    destruct y as [h q r n t hist]. destruct r as [sp ac oc pr ci co ns ss].
    cbn in Ry. rewrite <- Ry. destruct pr, ac, oc; reflexivity.
Qed.

Lemma onerror_keeps_transcript_witness :
  transcripts (hooks (render (onerror (component one_turn))))
  = transcripts (hooks (component one_turn)) /\
  view (hooks (render (onerror (component one_turn))))
  = renderFinished (transcripts (hooks (component one_turn))).
Proof.
  destruct (onerror_keeps_transcript (component one_turn) eq_refl)
    as (_ & _ & H3 & H4 & _).
  split; [exact H3|exact H4].
Defined.

End InterviewExtra.

(* ===================================================================== *)
(** * The capture encoding: order, symmetry and layout *)
(* ===================================================================== *)

Module PCMExtra.
Import PCM PCMFacts.
Local Open Scope Z_scope.

Lemma floor_le (a b c d : Z) :
  0 < b -> 0 < d -> a * d <= c * b -> a / b <= c / d.
Proof.
  intros Hb Hd H. apply Z.div_le_lower_bound; [exact Hd|].
  pose proof (Z.mul_div_le a b Hb) as M.
  assert (E : b * (d * (a / b)) <= b * c) by nia.
  apply Z.mul_le_mono_pos_l in E; assumption.
Qed.

Lemma truncate_monotone (x y : Q) : (x <= y)%Q -> truncate x <= truncate y.
Proof.
  destruct x as [a b], y as [c d]. unfold Qle, truncate; cbn.
  intros H.
  assert (Hb : 0 < Z.pos b) by lia. assert (Hd : 0 < Z.pos d) by lia.
  destruct (Z.le_gt_cases 0 a) as [Ha|Ha], (Z.le_gt_cases 0 c) as [Hc|Hc].
  - rewrite !Z.quot_div_nonneg by lia. apply floor_le; assumption.
  - nia.
  - pose proof (Z.quot_opp_l (- a) (Z.pos b)) as Qa.
    rewrite Z.opp_involutive in Qa. rewrite Qa by lia.
    rewrite !Z.quot_div_nonneg by lia.
    pose proof (Z.div_pos (- a) (Z.pos b)). pose proof (Z.div_pos c (Z.pos d)). lia.
  - pose proof (Z.quot_opp_l (- a) (Z.pos b)) as Qa.
    pose proof (Z.quot_opp_l (- c) (Z.pos d)) as Qc.
    rewrite Z.opp_involutive in Qa, Qc. rewrite Qa, Qc by lia.
    rewrite !Z.quot_div_nonneg by lia.
    apply Z.opp_le_mono. rewrite !Z.opp_involutive.
    apply floor_le; [assumption..|lia].
Qed.

Lemma truncate_opp (x : Q) : truncate (- x) = - truncate x.
Proof.
  destruct x as [a b]. unfold truncate; cbn. apply Z.quot_opp_l. lia.
Qed.

(** For samples in [-1, 1] the encoding never yields -32768, commutes
    with negation and preserves order. *)
Theorem int16_of_sample_in_range (s s' : Q) :
  (-1 <= s <= 1)%Q -> (-1 <= s' <= 1)%Q ->
  -32767 <= int16_of_sample s <= 32767 /\
  int16_of_sample (- s) = - int16_of_sample s /\
  ((s <= s')%Q -> int16_of_sample s <= int16_of_sample s').
Proof.
  intros H H'.
  assert (Ho : (-1 <= - s <= 1)%Q).
  { destruct H as [H1 H2]. split.
    - apply Qopp_le_compat in H2. exact H2.
    - apply Qopp_le_compat in H1. exact H1. }
  rewrite (int16_of_sample_exact s H), (int16_of_sample_exact s' H'),
    (int16_of_sample_exact (- s) Ho).
  split; [apply truncate_scaled_range, H|]. split.
  - rewrite <- truncate_opp. f_equal.
    destruct s as [n d]. unfold Qopp, Qmult; cbn. f_equal. lia.
  - intros L. apply truncate_monotone.
    apply Qmult_le_compat_r; [exact L|discriminate].
Qed.

Lemma int16_of_sample_in_range_witness :
  int16_of_sample (- (1 # 3)) = - int16_of_sample (1 # 3) /\
  int16_of_sample (1 # 3) <= int16_of_sample (1 # 2).
Proof.
  assert (H : (-1 <= 1 # 3 <= 1)%Q) by (split; discriminate).
  assert (H' : (-1 <= 1 # 2 <= 1)%Q) by (split; discriminate).
  destruct (int16_of_sample_in_range (1 # 3) (1 # 2) H H') as (_ & E & L).
  split; [exact E|]. apply L. discriminate.
Defined.

(** The encoding truncates toward zero: a sample in [-1, 1] is stored as
    0 exactly when its magnitude is below one 16-bit step. *)
Theorem int16_of_sample_zero (s : Q) :
  (-1 <= s <= 1)%Q ->
  int16_of_sample s = 0 <-> (Qabs s < 1 # 32767)%Q.
Proof.
  intros H. rewrite (int16_of_sample_exact s H).
  destruct s as [n d]. unfold truncate, Qlt, Qabs, Qmult; cbn.
  rewrite Pos.mul_1_r.
  assert (Hd : 0 < Z.pos d) by lia.
  split.
  - intros E. Z.quot_rem_to_equations. nia.
  - intros L. apply Z.quot_small_iff; [lia|].
    rewrite (Z.abs_mul n 32767). cbn [Z.abs]. lia.
Qed.

Lemma int16_of_sample_zero_witness :
  int16_of_sample (1 # 40000) = 0 <-> (Qabs (1 # 40000) < 1 # 32767)%Q.
Proof.
  apply (int16_of_sample_zero (1 # 40000)). split; discriminate.
Defined.

(** The byte view of the samples: two bytes per sample, the low byte
    first and then the high byte of its two's complement form. *)
Theorem Uint8Array_layout (buffer : list Z) :
  List.length (Uint8Array buffer) = (2 * List.length buffer)%nat /\
  Forall is_byte (Uint8Array buffer) /\
  forall i v,
    nth_error buffer i = Some v ->
    nth_error (Uint8Array buffer) (2 * i) = Some (v mod 256) /\
    nth_error (Uint8Array buffer) (2 * i + 1) = Some (v / 256 mod 256).
Proof.
  split; [|split; [apply Uint8Array_bytes|]].
  - induction buffer as [|v l IH]; cbn [Uint8Array flat_map bytes_of_int16 app
      List.length]; [reflexivity|].
    fold (Uint8Array l). rewrite IH. lia.
  - induction buffer as [|w l IH]; intros i v H.
    + destruct i; discriminate.
    + destruct i as [|i].
      * injection H as ->. cbn. split; f_equal; Z.div_mod_to_equations; lia.
      * cbn [nth_error] in H.
        replace (2 * S i)%nat with (S (S (2 * i))) by lia.
        replace (S (S (2 * i)) + 1)%nat with (S (S (2 * i + 1))) by lia.
        cbn [Uint8Array flat_map bytes_of_int16 app nth_error].
        apply IH, H.
Qed.

End PCMExtra.

(* ===================================================================== *)
(** * The chat panel: sources, flags and the failure path *)
(* ===================================================================== *)

Module ChatExtra.
Import Chatbot ChatFacts.
Local Open Scope nat_scope.

(** ** Grounding sources *)

Lemma to_source_title (g : GroundingChunk) : fst (to_source g) <> [].
Proof.
  unfold to_source, or_else, opt_chain. cbn [fst].
  destruct (web g) as [[[[|a t]|] wu]|], (maps g) as [[[[|b t']|] mu]|];
    cbn; discriminate.
Qed.

Lemma jsstring_eqb_true (a : jsstring) : jsstring_eqb a a = true.
Proof.
  unfold jsstring_eqb. destruct (list_eq_dec N.eq_dec a a); congruence.
Qed.

Lemma new_sources_spec (all : list GroundingSource)
    (mapped : list (jsstring * option jsstring)) :
  (forall m, In m mapped -> fst m <> []) ->
  Forall (fun s => titled_and_located s /\ ~ In (uri s) (map uri all))
    (new_sources all mapped).
Proof.
  intros Ht. unfold new_sources. apply Forall_forall. intros s Hs.
  apply in_flat_map in Hs as ([t u] & Hm & Hs). cbn [fst snd] in Hs.
  destruct u as [[|u us]|]; try contradiction.
  destruct (existsb _ all) eqn:E; [contradiction|].
  destruct Hs as [<-|[]]. cbn [title uri]. split.
  - split; [apply (Ht _ Hm)|discriminate].
  - intros Hin. apply in_map_iff in Hin as (a & Ea & Ha).
    assert (T : existsb (fun a => jsstring_eqb (uri a) (u :: us)) all = true).
    { apply existsb_exists. exists a. split; [exact Ha|].
      rewrite Ea. apply jsstring_eqb_true. }
    congruence.
Qed.

(** One chunk of the stream only adds to the collected sources; what it
    adds has a title and a uri, and no uri that an earlier chunk already
    brought.  The filter looks at earlier chunks only: it treats the
    entries of one chunk independently of each other. *)
Theorem on_chunk_sources (id : nat) (chunk : Chunk) (c : Component) :
  id < List.length (store c) ->
  let before := allSources (locals_of id (store c)) in
  let after := allSources (locals_of id (store (on_chunk id chunk c))) in
  (exists new,
     after = before ++ new /\
     Forall (fun s => titled_and_located s /\ ~ In (uri s) (map uri before)) new)
  /\
  forall m1 m2,
    new_sources before (m1 ++ m2) = new_sources before m1 ++ new_sources before m2.
Proof.
  intros H before after. subst before after. split.
  - unfold on_chunk. rewrite store_dispatch. cbn [store with_store].
    rewrite locals_of_store_set by exact H. cbn [allSources].
    destruct (groundingChunks chunk) as [gs|].
    + eexists. split; [reflexivity|]. apply new_sources_spec.
      intros m Hm. apply in_map_iff in Hm as (g & <- & _). apply to_source_title.
    + exists []. split; [symmetry; apply app_nil_r|constructor].
  - intros m1 m2. unfold new_sources. apply flat_map_app.
Qed.

Lemma on_chunk_sources_witness :
  exists new,
    allSources (locals_of 0 (store (on_chunk 0 cited_chunk one_source)))
    = allSources (locals_of 0 (store one_source)) ++ new /\
    Forall (fun s => titled_and_located s
                     /\ ~ In (uri s)
                          (map uri (allSources (locals_of 0 (store one_source)))))
      new.
Proof.
  assert (H : 0 < List.length (store one_source)) by (cbn; lia).
  exact (proj1 (on_chunk_sources 0 cited_chunk one_source H)).
Defined.

(** The chunk above adds the second place under the default title, and
    adds it again for its repetition within the same chunk. *)
Example cited_chunk_sources :
  allSources (locals_of 0 (store (on_chunk 0 cited_chunk one_source)))
  = [{| title := str "Docs"; uri := str "https://a.example" |};
     {| title := str "Source"; uri := str "https://b.example" |};
     {| title := str "Again"; uri := str "https://b.example" |}].
Proof. vm_compute. reflexivity. Qed.

(** ** What a render commits *)

Lemma chat_hooks_render (c : Component) : hooks (render c) = committed (store c) c.
Proof. reflexivity. Qed.

Lemma chat_unchanged_reduce (s : Store) (h : Hooks) (a : Action) :
  unchanged h a = true -> reduce s h a = h.
Proof.
  destruct h, a; cbn; intros H; try discriminate.
  - unfold jsstring_eqb in H.
    destruct (list_eq_dec N.eq_dec v input0); [congruence|discriminate].
  - apply Bool.eqb_prop in H. congruence.
  - apply Bool.eqb_prop in H. congruence.
Qed.

Lemma committed_dispatch (s : Store) (a : Action) (c : Component) :
  stable a -> committed s (dispatch a c) = reduce s (committed s c) a.
Proof.
  intros St. unfold committed, dispatch, React.dispatch, with_fiber; cbn.
  destruct (updateQueue c) as [|a0 q]; cbn.
  - destruct (unchanged (hooks c) a) eqn:U; cbn.
    + symmetry. apply chat_unchanged_reduce, U.
    + destruct a; cbn in *; try reflexivity.
      rewrite (St (store c) s). reflexivity.
  - rewrite fold_left_app. reflexivity.
Qed.

Lemma flags_reduce (s s' : Store) (h h' : Hooks) (a : Action) :
  flags h = flags h' -> flags (reduce s h a) = flags (reduce s' h' a).
Proof.
  unfold flags. intros [= E1 E2 E3 E4]. destruct a; cbn; congruence.
Qed.

Lemma flags_fold (s s' : Store) (q : list Action) : forall h h',
  flags h = flags h' ->
  flags (fold_left (reduce s) q h) = flags (fold_left (reduce s') q h').
Proof.
  induction q as [|a q IH]; intros h h' E; [exact E|].
  cbn. apply IH, flags_reduce, E.
Qed.

Lemma flags_committed (s s' : Store) (c : Component) :
  flags (committed s c) = flags (committed s' c).
Proof. apply flags_fold. reflexivity. Qed.

Lemma flags_dispatch (s : Store) (a : Action) (c : Component) :
  flags (committed s (dispatch a c)) = flags (reduce s (committed s c) a).
Proof.
  unfold committed, dispatch, React.dispatch, with_fiber; cbn.
  destruct (updateQueue c) as [|a0 q]; cbn.
  - destruct (unchanged (hooks c) a) eqn:U; cbn.
    + rewrite (chat_unchanged_reduce s _ _ U). reflexivity.
    + destruct a; reflexivity.
  - rewrite fold_left_app. reflexivity.
Qed.

(** ** The input field and the loading flag *)

Lemma flags_on_chunk (s : Store) id chunk c :
  flags (committed s (on_chunk id chunk c)) = flags (committed s c).
Proof.
  unfold on_chunk. rewrite flags_dispatch. cbn [reduce]. reflexivity.
Qed.

Lemma flags_run (s : Store) id es : forall c,
  flags (committed s (run id es c)) = flags (committed s c).
Proof.
  induction es as [|[chunk|] es IH]; intros c; [reflexivity| |].
  - cbn [run fold_left step]. fold (run id es (on_chunk id chunk c)).
    rewrite IH. apply flags_on_chunk.
  - cbn [run fold_left step]. fold (run id es (render c)).
    rewrite IH. change (committed s (render c)) with (committed (store c) c).
    apply flags_committed.
Qed.

Lemma flags_fields (h h' : Hooks) :
  flags h = flags h' -> input h = input h' /\ isLoading h = isLoading h'.
Proof. unfold flags. intros [= _ E2 E3 _]. auto. Qed.

Lemma flags_after_dispatch (s : Store) (a : Action) (c : Component) :
  input (committed s (dispatch a c)) = input (reduce s (committed s c) a) /\
  isLoading (committed s (dispatch a c)) = isLoading (reduce s (committed s c) a).
Proof. apply flags_fields, flags_dispatch. Qed.

Lemma sendMessage_sets_flags (c c' : Component) (id : nat) (s : Store) :
  sendMessage c = awaiting id c' ->
  input (committed s c') = [] /\ isLoading (committed s c') = true.
Proof.
  unfold sendMessage.
  destruct (negb (truthy (trim (input (hooks c)))) || negb (chat (hooks c)));
    [discriminate|].
  set (c1 := dispatch (setMessages_fn _) c).
  set (c2 := dispatch (setInput []) c1).
  set (c3 := dispatch (setIsLoading true) c2).
  set (c4 := dispatch (setMessages_fn _) c3).
  intros [= _ <-].
  change (committed s (call _ (with_store _ c4))) with (committed s c4).
  subst c4.
  destruct (flags_after_dispatch s (setMessages_fn
              (fun _ prev => prev ++ [{| sender := bot; text := [];
                                         sources := Some [] |}])) c3)
    as [-> ->].
  cbn [reduce input isLoading]. subst c3.
  destruct (flags_after_dispatch s (setIsLoading true) c2) as [-> ->].
  cbn [reduce input isLoading]. subst c2.
  destruct (flags_after_dispatch s (setInput []) c1) as [-> _].
  split; reflexivity.
Qed.

(** From the moment [sendMessage] goes ahead the input field is empty
    and the loading flag is on, through every chunk and render; the flag
    goes off when the stream ends, and also when it fails. *)
Theorem sendMessage_flags (c c' : Component) (id : nat) :
  sendMessage c = awaiting id c' ->
  forall es,
    let x := run id es c' in
    input (hooks (render x)) = [] /\
    isLoading (hooks (render x)) = true /\
    isLoading (hooks (render (on_finished x))) = false /\
    isLoading (hooks (render (on_failure x))) = false.
Proof.
  intros E es x.
  assert (X : forall s, input (committed s x) = []
                        /\ isLoading (committed s x) = true).
  { intros s. unfold x.
    destruct (flags_fields _ _ (flags_run s id es c')) as [-> ->].
    apply (sendMessage_sets_flags c c' id s E). }
  rewrite !chat_hooks_render. split; [apply X|]. split; [apply X|]. split.
  - unfold on_finished.
    destruct (flags_after_dispatch (store (dispatch (setIsLoading false) x))
                (setIsLoading false) x) as [_ ->].
    reflexivity.
  - unfold on_failure.
    match goal with
    | |- isLoading (committed ?s (dispatch ?a ?y)) = _ =>
        destruct (flags_after_dispatch s a y) as [_ ->]
    end.
    reflexivity.
Qed.

Lemma sendMessage_flags_witness :
  match sendMessage typed_hi with
  | awaiting id c' =>
      let x := run id [chunk_received (text_chunk "Hel"); rendered] c' in
      input (hooks (render x)) = [] /\ isLoading (hooks (render x)) = true
  | returned _ => False
  end.
Proof.
  destruct (sendMessage typed_hi) as [c'|id c'] eqn:E.
  - vm_compute in E. discriminate E.
  - destruct (sendMessage_flags _ c' id E
                [chunk_received (text_chunk "Hel"); rendered]) as (H1 & H2 & _).
    split; [exact H1|exact H2].
Defined.

(** ** The failure path and the spinner bubble *)

Lemma last_snoc_two (base : list ChatMessage) (u b : ChatMessage) :
  last (map Some (base ++ [u; b])) None = Some b.
Proof.
  rewrite map_app. change (map Some [u; b]) with ([Some u] ++ [Some b]).
  rewrite app_assoc. apply last_last.
Qed.

(** When the stream fails, at the request or after any number of
    chunks, the next render shows the earlier messages and the user's
    message as they were, and the bot message with the apology in place
    of the text received so far; the sources collected so far stay on
    it, and the loading flag is off. *)
Theorem sendMessage_failure (c : Component) (es : list Event) :
  updateQueue c = [] ->
  trim (input (hooks c)) <> [] -> chat (hooks c) = true ->
  exists c',
    sendMessage c = awaiting (List.length (store c)) c' /\
    let x := run (List.length (store c)) es c' in
    let shown := hooks (render (on_failure x)) in
    messages shown
    = messages (hooks c)
      ++ [{| sender := user; text := input (hooks c); sources := None |};
          {| sender := bot;
             text := str "Sorry, I encountered an error. Please try again.";
             sources :=
               Some (allSources (locals_of (List.length (store c)) (store x))) |}]
    /\ isLoading shown = false.
Proof.
  intros Hq Hi Hc.
  destruct (sendMessage_starts c Hq Hi Hc) as (c' & E & _ & Hs & _).
  exists c'. split; [exact E|]. intros x shown.
  pose proof (streaming_run _ _ _ es _ Hs) as (Hid & g & Hg & Hb & Hl).
  fold x in Hid, Hg, Hl. subst shown. rewrite chat_hooks_render.
  change (store (on_failure x)) with (store x). unfold on_failure.
  rewrite !committed_dispatch; [|intros s s' prev; reflexivity|exact I].
  cbn [reduce messages isLoading]. split; [|reflexivity].
  change (messages (committed (store x) x)) with (pending_messages (store x) x).
  rewrite Hg. unfold show_failure. rewrite map_last_two. rewrite Hl.
  reflexivity.
Qed.

Lemma sendMessage_failure_witness :
  exists c',
    sendMessage typed_hi = awaiting 0 c' /\
    let x := run 0 [chunk_received cited_chunk; rendered] c' in
    isLoading (hooks (render (on_failure x))) = false.
Proof.
  assert (Hq : updateQueue typed_hi = []) by reflexivity.
  assert (Hi : trim (input (hooks typed_hi)) <> []) by (vm_compute; discriminate).
  assert (Hc : chat (hooks typed_hi) = true) by reflexivity.
  destruct (sendMessage_failure typed_hi [chunk_received cited_chunk; rendered]
              Hq Hi Hc) as (c' & E & _ & H).
  exists c'. split; [exact E|exact H].
Defined.

(** The spinner bubble is rendered when the panel is loading and the
    last message is the user's.  [sendMessage] appends the empty bot
    message in the same batch as the user's message, so no render of a
    call in progress shows the bubble, although the panel is loading;
    nor does the render after the stream has ended. *)
Theorem spinner_never_shown (c : Component) (es : list Event) :
  updateQueue c = [] ->
  trim (input (hooks c)) <> [] -> chat (hooks c) = true ->
  exists c',
    sendMessage c = awaiting (List.length (store c)) c' /\
    let x := run (List.length (store c)) es c' in
    isLoading (hooks (render x)) = true /\
    spinner_shown (hooks (render x)) = false /\
    spinner_shown (hooks (render (on_finished x))) = false.
Proof.
  intros Hq Hi Hc.
  destruct (sendMessage_starts c Hq Hi Hc) as (c' & E & _ & Hs & _).
  exists c'. split; [exact E|]. intros x.
  pose proof (streaming_run _ _ _ es _ Hs) as (Hid & g & Hg & Hb & Hl).
  fold x in Hid, Hg, Hl.
  assert (L : isLoading (hooks (render x)) = true).
  { rewrite chat_hooks_render. unfold x.
    destruct (flags_fields _ _ (flags_run (store (run (List.length (store c)) es c'))
                                  (List.length (store c)) es c')) as [_ ->].
    apply (sendMessage_sets_flags c c' _ _ E). }
  split; [exact L|]. split.
  - unfold spinner_shown. rewrite L. rewrite chat_hooks_render.
    change (messages (committed (store x) x)) with (pending_messages (store x) x).
    rewrite Hg, last_snoc_two, Hb. reflexivity.
  - unfold spinner_shown. rewrite chat_hooks_render. unfold on_finished.
    destruct (flags_after_dispatch (store (dispatch (setIsLoading false) x))
                (setIsLoading false) x) as [_ ->].
    reflexivity.
Qed.

Lemma spinner_never_shown_witness :
  exists c',
    sendMessage typed_hi = awaiting 0 c' /\
    spinner_shown (hooks (render (run 0 [rendered] c'))) = false.
Proof.
  assert (Hq : updateQueue typed_hi = []) by reflexivity.
  assert (Hi : trim (input (hooks typed_hi)) <> []) by (vm_compute; discriminate).
  assert (Hc : chat (hooks typed_hi) = true) by reflexivity.
  destruct (spinner_never_shown typed_hi [rendered] Hq Hi Hc)
    as (c' & E & _ & H & _).
  exists c'. split; [exact E|exact H].
Defined.

End ChatExtra.

(* ===================================================================== *)
(** * The video generator: outcomes of a submit and the key error *)
(* ===================================================================== *)

Lemma startsWith_spec (p : jsstring) : forall s,
  startsWith p s = true <-> exists b, s = p ++ b.
Proof.
  induction p as [|a p IH]; intros s; cbn.
  - split; [intros _; exists s; reflexivity|reflexivity].
  - destruct s as [|b s]; [split; [discriminate|intros [x H]; discriminate H]|].
    rewrite andb_true_iff, N.eqb_eq, IH. split.
    + intros [-> [x ->]]. exists x. reflexivity.
    + intros [x H]. injection H as -> ->. split; [reflexivity|]. exists x. reflexivity.
Qed.

Lemma includes_spec (p : jsstring) : forall s,
  includes s p = true <-> exists a b, s = a ++ p ++ b.
Proof.
  induction s as [|x s IH].
  - cbn. rewrite orb_false_r, startsWith_spec. split.
    + intros [b H]. exists [], b. exact H.
    + intros (a & b & H). destruct a; [|discriminate H]. exists b. exact H.
  - cbn [includes]. rewrite orb_true_iff, startsWith_spec, IH. split.
    + intros [[b H]|(a & b & H)].
      * exists [], b. exact H.
      * exists (x :: a), b. cbn. rewrite H. reflexivity.
    + intros (a & b & H). destruct a as [|y a].
      * left. exists b. exact H.
      * right. injection H as _ H. exists a, b. exact H.
Qed.

Module VideoFacts.
Import VideoGenerator.

Lemma video_hooks_render (c : Component) : hooks (render c) = committed c.
Proof. reflexivity. Qed.

Lemma video_committed_render (c : Component) : committed (render c) = committed c.
Proof. reflexivity. Qed.

Lemma video_unchanged_reduce (h : Hooks) (a : Action) :
  unchanged h a = true -> reduce tt h a = h.
Proof.
  destruct h, a; cbn; intros H; try discriminate.
  - unfold jsstring_eqb in H.
    destruct (list_eq_dec N.eq_dec v prompt0); [congruence|discriminate].
  - destruct v, aspectRatio0; try discriminate; reflexivity.
  - unfold jsstring_eqb in H.
    destruct (list_eq_dec N.eq_dec v videoUrl0); [congruence|discriminate].
  - apply Bool.eqb_prop in H. congruence.
  - unfold jsstring_eqb in H.
    destruct (list_eq_dec N.eq_dec v error0); [congruence|discriminate].
  - apply Bool.eqb_prop in H. congruence.
Qed.

Lemma video_committed_dispatch (a : Action) (c : Component) :
  committed (dispatch a c) = reduce tt (committed c) a.
Proof.
  unfold committed, dispatch, React.dispatch, with_fiber; cbn.
  destruct (updateQueue c) as [|a0 q]; cbn.
  - destruct (unchanged (hooks c) a) eqn:U; cbn; [|reflexivity].
    symmetry. apply video_unchanged_reduce, U.
  - rewrite fold_left_app. reflexivity.
Qed.

Lemma video_hooks_dispatch (a : Action) (c : Component) :
  hooks (dispatch a c) = hooks c.
Proof.
  unfold dispatch, React.dispatch, with_fiber; cbn.
  destruct (updateQueue c); [destruct (unchanged (hooks c) a)|]; reflexivity.
Qed.

Lemma result_step (e : Event) (c : Component) :
  result (committed (step e c)) = result (committed c) /\
  trace (step e c) = trace c.
Proof.
  destruct e as [v|[f|]|v|]; cbn [step handleFileChange];
    rewrite ?video_committed_dispatch, ?video_committed_render;
    split; reflexivity.
Qed.

Lemma result_run (es : list Event) : forall c,
  result (committed (run es c)) = result (committed c) /\
  trace (run es c) = trace c.
Proof.
  induction es as [|e es IH]; intros c; [split; reflexivity|].
  cbn [run fold_left]. fold (run es (step e c)).
  destruct (IH (step e c)) as [-> ->]. apply result_step.
Qed.

Lemma result_fields (h h' : Hooks) :
  result h = result h' ->
  videoUrl h = videoUrl h' /\ isLoading h = isLoading h' /\
  error h = error h' /\ apiKeySelected h = apiKeySelected h'.
Proof. unfold result. intros [= -> -> -> ->]. repeat split. Qed.

Lemma submit_guard (c : Component) :
  prompt (hooks c) <> [] \/ startImageFile (hooks c) <> None ->
  negb (truthy (prompt (hooks c))) && is_null (startImageFile (hooks c)) = false.
Proof.
  intros [H|H].
  - destruct (prompt (hooks c)); [contradiction|reflexivity].
  - destruct (startImageFile (hooks c)); [apply andb_false_r|contradiction].
Qed.

Lemma handleSubmit_starts (c : Component) :
  prompt (hooks c) <> [] \/ startImageFile (hooks c) <> None ->
  exists c',
    handleSubmit c = awaiting c' /\
    trace c'
    = trace c ++ [preventDefault;
                  generateVideo (prompt (hooks c)) (aspectRatio (hooks c))
                    (startImageFile (hooks c))] /\
    videoUrl (committed c') = [] /\ isLoading (committed c') = true /\
    error (committed c') = [] /\
    apiKeySelected (committed c') = apiKeySelected (committed c).
Proof.
  intros G. unfold handleSubmit.
  change (hooks (call preventDefault c)) with (hooks c).
  rewrite (submit_guard c G).
  eexists. split; [reflexivity|]. split.
  - cbn [trace call dispatch with_fiber]. rewrite !video_hooks_dispatch.
    rewrite <- app_assoc. reflexivity.
  - change (committed (call ?e ?x)) with (committed x).
    rewrite !video_committed_dispatch. cbn. repeat split.
Qed.

(** A submit that goes ahead makes one request, with the prompt, ratio
    and start image of the last render.  Whatever the user does in the
    form meanwhile, the renders before the outcome show the generator
    loading with the previous video and error gone; the render after it
    shows it idle, with the video or else with an error, never with
    both, and a video leaves the key selection alone. *)
Theorem handleSubmit_outcome (c : Component) (es : list Event) (o : Outcome) :
  prompt (hooks c) <> [] \/ startImageFile (hooks c) <> None ->
  exists c',
    handleSubmit c = awaiting c' /\
    trace (run es c')
    = trace c ++ [preventDefault;
                  generateVideo (prompt (hooks c)) (aspectRatio (hooks c))
                    (startImageFile (hooks c))] /\
    let waiting := hooks (render (run es c')) in
    let done := hooks (render (handleSubmit_resume o (run es c'))) in
    (isLoading waiting = true /\ videoUrl waiting = [] /\ error waiting = []) /\
    isLoading done = false /\
    (videoUrl done = [] \/ error done = []) /\
    match o with
    | resolved url =>
        videoUrl done = url /\ error done = [] /\
        apiKeySelected done = apiKeySelected waiting
    | rejected _ => videoUrl done = []
    end.
Proof.
  intros G.
  destruct (handleSubmit_starts c G) as (c' & E & T & V & L & Er & K).
  exists c'. split; [exact E|].
  destruct (result_run es c') as [R Tr].
  apply result_fields in R as (RV & RL & RE & RK).
  rewrite V in RV. rewrite L in RL. rewrite Er in RE.
  split; [rewrite Tr; exact T|].
  intros waiting done. subst waiting done. rewrite !video_hooks_render.
  split; [repeat split; assumption|].
  unfold handleSubmit_resume. rewrite video_committed_dispatch.
  cbn [reduce isLoading videoUrl error apiKeySelected].
  split; [reflexivity|].
  destruct o as [url|err].
  - rewrite video_committed_dispatch.
    cbn [reduce isLoading videoUrl error apiKeySelected].
    split; [right; exact RE|]. repeat split. exact RE.
  - destruct (includes _ _).
    + rewrite !video_committed_dispatch.
      cbn [reduce isLoading videoUrl error apiKeySelected].
      split; [left; exact RV|exact RV].
    + rewrite video_committed_dispatch.
      cbn [reduce isLoading videoUrl error apiKeySelected].
      split; [left; exact RV|exact RV].
Qed.

Lemma handleSubmit_outcome_witness :
  exists c',
    handleSubmit prompted = awaiting c' /\
    let done :=
      hooks (render (handleSubmit_resume (resolved (str "blob:video"))
                       (run [prompt_changed []; rendered] c'))) in
    isLoading done = false /\ videoUrl done = str "blob:video".
Proof.
  assert (G : prompt (hooks prompted) <> []
              \/ startImageFile (hooks prompted) <> None)
    by (left; vm_compute; discriminate).
  destruct (handleSubmit_outcome prompted [prompt_changed []; rendered]
              (resolved (str "blob:video")) G)
    as (c' & E & _ & _ & H1 & _ & H2 & _).
  exists c'. split; [exact E|]. split; [exact H1|exact H2].
Defined.

(** When the request fails with a message that contains "Requested
    entity was not found", the next render shows the key panel, not the
    form: the message set for the user, that the key is not valid, is
    not on screen.  It appears once a key has been selected again, and
    stays until the next submit. *)
Theorem invalid_key_message_shown_late (c : Component) (es : list Event)
    (m : jsstring) :
  prompt (hooks c) <> [] \/ startImageFile (hooks c) <> None ->
  (exists a b, m = a ++ str "Requested entity was not found" ++ b) ->
  exists c',
    handleSubmit c = awaiting c' /\
    let failed := render (handleSubmit_resume (rejected (Error m)) (run es c')) in
    let notice := str "API Key not valid. Please select a valid API key." in
    view (hooks failed) = key_required /\
    error (hooks failed) = notice /\
    view (hooks (render (handleSelectKey_resume (handleSelectKey failed))))
    = form (negb (truthy (prompt (hooks failed)))
            && is_null (startImageFile (hooks failed)))
        false (Some notice) None.
Proof.
  intros G Hm.
  destruct (handleSubmit_starts c G) as (c' & E & T & V & L & Er & K).
  exists c'. split; [exact E|].
  destruct (result_run es c') as [R _].
  apply result_fields in R as (RV & _ & _ & _). rewrite V in RV.
  intros failed notice.
  assert (F : hooks failed
              = reduce tt
                  (reduce tt
                     (reduce tt (committed (run es c')) (setApiKeySelected false))
                     (setError notice))
                  (setIsLoading false)).
  { unfold failed, handleSubmit_resume. rewrite video_hooks_render.
    apply includes_spec in Hm. rewrite Hm.
    rewrite !video_committed_dispatch. reflexivity. }
  split; [rewrite F; reflexivity|]. split; [rewrite F; reflexivity|].
  rewrite video_hooks_render.
  assert (S : committed (handleSelectKey failed) = hooks failed).
  { unfold handleSelectKey. destruct (aistudio failed); reflexivity. }
  unfold handleSelectKey_resume. rewrite video_committed_dispatch, S, F.
  unfold view. cbn [reduce isLoading videoUrl error apiKeySelected prompt
                    startImageFile negb orb].
  rewrite RV. reflexivity.
Qed.

Lemma invalid_key_message_shown_late_witness :
  exists c',
    handleSubmit prompted = awaiting c' /\
    view (hooks (render (handleSubmit_resume
                           (rejected (Error (str "404 Requested entity was not found.")))
                           (run [rendered] c'))))
    = key_required.
Proof.
  assert (G : prompt (hooks prompted) <> []
              \/ startImageFile (hooks prompted) <> None)
    by (left; vm_compute; discriminate).
  assert (Hm : exists a b,
             str "404 Requested entity was not found."
             = a ++ str "Requested entity was not found" ++ b)
    by (exists (str "404 "), (str "."); reflexivity).
  destruct (invalid_key_message_shown_late prompted [rendered] _ G Hm)
    as (c' & E & H & _).
  exists c'. split; [exact E|exact H].
Defined.

End VideoFacts.

(* ===================================================================== *)
(** * The resume analyzer: the guard and the outcomes of an analysis *)
(* ===================================================================== *)

Module ResumeFacts.
Import ResumeHelper.

Lemma resume_hooks_render (c : Component) : hooks (render c) = committed c.
Proof. reflexivity. Qed.

Lemma resume_unchanged_reduce (h : Hooks) (a : Action) :
  unchanged h a = true -> reduce tt h a = h.
Proof.
  destruct h, a; cbn; intros H; try discriminate.
  - unfold jsstring_eqb in H.
    destruct (list_eq_dec N.eq_dec v resumeText0); [congruence|discriminate].
  - unfold jsstring_eqb in H.
    destruct (list_eq_dec N.eq_dec v jdText0); [congruence|discriminate].
  - apply Bool.eqb_prop in H. congruence.
  - destruct v, analysis0; try discriminate; reflexivity.
  - destruct v, activeTab0; try discriminate; reflexivity.
Qed.

Lemma resume_committed_dispatch (a : Action) (c : Component) :
  committed (dispatch a c) = reduce tt (committed c) a.
Proof.
  unfold committed, dispatch, React.dispatch, with_fiber; cbn.
  destruct (updateQueue c) as [|a0 q]; cbn.
  - destruct (unchanged (hooks c) a) eqn:U; cbn; [|reflexivity].
    symmetry. apply resume_unchanged_reduce, U.
  - rewrite fold_left_app. reflexivity.
Qed.

Lemma resume_hooks_dispatch (a : Action) (c : Component) :
  hooks (dispatch a c) = hooks c.
Proof.
  unfold dispatch, React.dispatch, with_fiber; cbn.
  destruct (updateQueue c); [destruct (unchanged (hooks c) a)|]; reflexivity.
Qed.

Lemma analysis_step (e : Event) (c : Component) :
  isLoading (committed (step e c)) = isLoading (committed c) /\
  analysis (committed (step e c)) = analysis (committed c) /\
  trace (step e c) = trace c.
Proof.
  destruct e; cbn [step]; rewrite ?resume_committed_dispatch;
    repeat split; reflexivity.
Qed.

Lemma analysis_run (es : list Event) : forall c,
  isLoading (committed (run es c)) = isLoading (committed c) /\
  analysis (committed (run es c)) = analysis (committed c) /\
  trace (run es c) = trace c.
Proof.
  induction es as [|e es IH]; intros c; [repeat split; reflexivity|].
  cbn [run fold_left]. fold (run es (step e c)).
  destruct (IH (step e c)) as (-> & -> & ->). apply analysis_step.
Qed.

(** With the resume or the job description empty or blank,
    [handleAnalyze] makes no request and leaves the loading flag alone;
    the next render shows the request to paste both, in place of any
    earlier analysis. *)
Theorem handleAnalyze_blank (c : Component) :
  forallb isWhiteSpace (resumeText (hooks c)) = true
  \/ forallb isWhiteSpace (jdText (hooks c)) = true ->
  exists c',
    handleAnalyze c = returned c' /\
    trace c' = trace c /\
    isLoading (hooks (render c')) = isLoading (hooks (render c)) /\
    analysis (hooks (render c'))
    = Some (error_only "Please paste both your resume and the job description.").
Proof.
  intros B. unfold handleAnalyze.
  assert (G : negb (truthy (trim (resumeText (hooks c))))
              || negb (truthy (trim (jdText (hooks c)))) = true).
  { apply orb_true_iff.
    destruct B as [B|B]; [left|right];
      apply trim_nil_iff in B; rewrite B; reflexivity. }
  rewrite G. eexists. split; [reflexivity|].
  rewrite !resume_hooks_render, resume_committed_dispatch.
  repeat split.
Qed.

Lemma handleAnalyze_blank_witness :
  exists c',
    handleAnalyze (render (dispatch (setResumeText (str "CV")) mount))
    = returned c' /\
    analysis (hooks (render c'))
    = Some (error_only "Please paste both your resume and the job description.").
Proof.
  set (c := render (dispatch (setResumeText (str "CV")) mount)).
  assert (B : forallb isWhiteSpace (resumeText (hooks c)) = true
              \/ forallb isWhiteSpace (jdText (hooks c)) = true)
    by (right; reflexivity).
  destruct (handleAnalyze_blank c B) as (c' & E & _ & _ & H).
  exists c'. split; [exact E|exact H].
Defined.

(** With both texts filled in, [handleAnalyze] makes one request, with
    the texts as typed (not trimmed).  Whatever the user types or clicks
    meanwhile, the renders before the outcome show the analyzer loading
    and no analysis; the render after it shows it idle, with what the
    answer parsed to, or with the parse failure notice when the request
    or the parse threw. *)
Theorem handleAnalyze_outcome (c : Component) (es : list Event) (o : Outcome) :
  forallb isWhiteSpace (resumeText (hooks c)) = false ->
  forallb isWhiteSpace (jdText (hooks c)) = false ->
  exists c',
    handleAnalyze c = awaiting c' /\
    trace (run es c')
    = trace c ++ [analyzeResumeWithJd (resumeText (hooks c)) (jdText (hooks c))] /\
    let waiting := hooks (render (run es c')) in
    let done := hooks (render (handleAnalyze_resume o (run es c'))) in
    isLoading waiting = true /\ analysis waiting = None /\
    isLoading done = false /\
    analysis done
    = match o with
      | parsed resultJson => resultJson
      | thrown =>
          Some (error_only
                  "Failed to parse the analysis. The model may have returned an unexpected format.")
      end.
Proof.
  intros B1 B2. unfold handleAnalyze.
  assert (G : negb (truthy (trim (resumeText (hooks c))))
              || negb (truthy (trim (jdText (hooks c)))) = false).
  { apply orb_false_iff. split.
    - destruct (trim (resumeText (hooks c))) eqn:E; [|reflexivity].
      apply trim_nil_iff in E. congruence.
    - destruct (trim (jdText (hooks c))) eqn:E; [|reflexivity].
      apply trim_nil_iff in E. congruence. }
  rewrite G. eexists. split; [reflexivity|].
  match goal with |- context [run es ?x] => set (c' := x) end.
  destruct (analysis_run es c') as (L & A & T).
  assert (L' : isLoading (committed c') = true).
  { unfold c'. change (committed (call ?e ?x)) with (committed x).
    rewrite !resume_committed_dispatch. reflexivity. }
  assert (A' : analysis (committed c') = None).
  { unfold c'. change (committed (call ?e ?x)) with (committed x).
    rewrite !resume_committed_dispatch. reflexivity. }
  split.
  { rewrite T. unfold c'. cbn [trace call]. rewrite !resume_hooks_dispatch.
    reflexivity. }
  cbv zeta. rewrite !resume_hooks_render.
  split; [congruence|]. split; [congruence|].
  unfold handleAnalyze_resume. rewrite resume_committed_dispatch.
  destruct o; rewrite resume_committed_dispatch; split; reflexivity.
Qed.

Lemma handleAnalyze_outcome_witness :
  exists c',
    handleAnalyze pasted = awaiting c' /\
    analysis (hooks (render (handleAnalyze_resume thrown
                               (run [tab_clicked template; rendered] c'))))
    = Some (error_only
              "Failed to parse the analysis. The model may have returned an unexpected format.").
Proof.
  assert (B1 : forallb isWhiteSpace (resumeText (hooks pasted)) = false)
    by reflexivity.
  assert (B2 : forallb isWhiteSpace (jdText (hooks pasted)) = false)
    by reflexivity.
  destruct (handleAnalyze_outcome pasted [tab_clicked template; rendered] thrown
              B1 B2) as (c' & E & _ & _ & _ & _ & H).
  exists c'. split; [exact E|exact H].
Defined.

End ResumeFacts.
